(** * The RefrescanteUI command line: argument dispatch of [src/index.ts]

    The program is a script: it reads the version from package.json, answers a
    literal [--version] itself, and hands every other argument vector to a
    command table built with the yargs library.  The development has four
    layers:

    - [Js]: the JavaScript values and array/string operations the script uses;
    - [Proc]: the effects of the script (console output, [process.exit]);
    - [Yargs]: the behaviour of the yargs library that the script relies on
      (yargs is an npm dependency, its code is not part of the repository);
    - [Index] and [Part000]: the two variants of the script,
      [src/index.ts] and the first file of [src/unnamed/part_000]. *)

From Stdlib Require Import String Ascii List ZArith Bool Lia DecimalString.
From stdpp Require Import base option strings list gmap.
Import ListNotations.
Local Open Scope string_scope.
Local Open Scope list_scope.

(** ** JavaScript values *)

Module Js.

(** [Array.prototype.includes] on an array of strings. *)
Fixpoint includes (l : list string) (x : string) : bool :=
  match l with
  | [] => false
  | y :: l' => if String.eqb y x then true else includes l' x
  end.

(** [Array.prototype.join]. *)
Fixpoint join (l : list string) (sep : string) : string :=
  match l with
  | [] => ""
  | x :: l' =>
      match l' with
      | [] => x
      | _ :: _ => x +:+ sep +:+ join l' sep
      end
  end.

(** [Array.prototype.slice(n)]. *)
Definition slice (n : nat) (l : list string) : list string := drop n l.

(** [String(n)] for a natural number. *)
Definition of_nat (n : nat) : string := NilEmpty.string_of_uint (Nat.to_uint n).

Definition of_N (n : N) : string := NilEmpty.string_of_uint (N.to_uint n).

(** *** Numbers read from strings

    yargs reads an argument that looks like a number as a JavaScript number
    unless the parameter is declared a string; printing the number then
    gives its canonical spelling, not the argument. *)

Definition code (c : ascii) : nat := nat_of_ascii c.

Definition is_digit (c : ascii) : bool := Nat.leb 48 (code c) && Nat.leb (code c) 57.

Definition is_hex_digit (c : ascii) : bool :=
  is_digit c
  || (Nat.leb 97 (code c) && Nat.leb (code c) 102)
  || (Nat.leb 65 (code c) && Nat.leb (code c) 70).

Definition digit_value (c : ascii) : N := N.of_nat (code c - 48).

Definition hex_value (c : ascii) : N :=
  if is_digit c then N.of_nat (code c - 48)
  else if Nat.leb 97 (code c) then N.of_nat (code c - 87)
  else N.of_nat (code c - 55).

(** The number a list of digits spells in base [b]. *)
Definition number_of (b : N) (value : ascii -> N) (ds : list ascii) : N :=
  fold_left (fun acc d => (acc * b + value d)%N) ds 0%N.

(** The longest prefix of characters that satisfy [f], and what follows. *)
Fixpoint span (f : ascii -> bool) (cs : list ascii) : list ascii * list ascii :=
  match cs with
  | c :: cs' =>
      if f c then let '(p, r) := span f cs' in (c :: p, r) else ([], cs)
  | [] => ([], [])
  end.

(** A decimal literal as the regular expression of [looksLikeNumber] reads
    it: an optional minus sign; digits, optionally followed by a point and
    more digits, or a point followed by digits; optionally [e], a sign and
    digits. *)
Record decimal := {
  negative : bool;
  int_part : list ascii;
  frac_part : list ascii;
  exponent : Z
}.

Definition read_exponent (cs : list ascii) : option Z :=
  match cs with
  | [] => Some 0%Z
  | e :: cs' =>
      if Ascii.eqb e "e"%char then
        let '(minus, ds) :=
          match cs' with
          | s :: ds' =>
              if Ascii.eqb s "-"%char then (true, ds')
              else if Ascii.eqb s "+"%char then (false, ds')
              else (false, cs')
          | [] => (false, [])
          end in
        match ds with
        | [] => None
        | _ :: _ =>
            if forallb is_digit ds
            then let n := Z.of_N (number_of 10 digit_value ds) in
                 Some (if minus then (- n)%Z else n)
            else None
        end
      else None
  end.

Definition read_decimal (cs : list ascii) : option decimal :=
  let '(neg, cs1) :=
    match cs with
    | c :: cs' => if Ascii.eqb c "-"%char then (true, cs') else (false, cs)
    | [] => (false, [])
    end in
  let '(ip, r1) := span is_digit cs1 in
  let '(dot, fp, r2) :=
    match r1 with
    | c :: r1' =>
        if Ascii.eqb c "."%char
        then let '(fp, r2) := span is_digit r1' in (true, fp, r2)
        else (false, [], r1)
    | [] => (false, [], [])
    end in
  let well_formed :=
    match ip with
    | _ :: _ => true
    | [] => dot && negb (Nat.eqb (length fp) 0)
    end in
  if well_formed then
    match read_exponent r2 with
    | Some e => Some {| negative := neg; int_part := ip; frac_part := fp; exponent := e |}
    | None => None
    end
  else None.

(** [/^0x[0-9a-f]+$/i]: the digits of a hexadecimal literal. *)
Definition read_hex (cs : list ascii) : option (list ascii) :=
  match cs with
  | z :: x :: ds =>
      if Ascii.eqb z "0"%char && (Ascii.eqb x "x"%char || Ascii.eqb x "X"%char)
         && negb (Nat.eqb (length ds) 0) && forallb is_hex_digit ds
      then Some ds else None
  | _ => None
  end.

(** [/^0[^.]/]: a leading zero not followed by the decimal point. *)
Definition leading_zero (cs : list ascii) : bool :=
  match cs with
  | z :: c :: _ => Ascii.eqb z "0"%char && negb (Ascii.eqb c "."%char)
  | _ => false
  end.

(** [looksLikeNumber] of yargs-parser. *)
Definition looksLikeNumber (s : string) : bool :=
  let cs := list_ascii_of_string s in
  match read_hex cs with
  | Some _ => true
  | None =>
      if leading_zero cs then false
      else match read_decimal cs with Some _ => true | None => false end
  end.

(** How an array element that went through [maybeCoerceNumber] prints:
    a string prints as it is, a number as [Number.prototype.toString]
    spells it.  [Unrendered] stands for a number whose spelling depends on
    the rounding of floating point, which is not worked out here. *)
Inductive element :=
| EString (s : string)
| ENumber (spelling : string)
| Unrendered.

Fixpoint strip_zeros (ds : list ascii) : list ascii * nat :=
  match ds with
  | d :: ds' =>
      if Ascii.eqb d "0"%char then let '(r, n) := strip_zeros ds' in (r, S n) else (ds, 0)
  | [] => ([], 0)
  end.

Definition zeros (n : nat) : list ascii := repeat "0"%char n.

(** The largest safe integer, [2^53 - 1]. *)
Definition MAX_SAFE_INTEGER : N := 9007199254740991.

(** [String(x)] for the number with significant digits [ds] (no zero at
    either end) and value [0.ds * 10^n], when it has at most 15 significant
    digits or is an integer: up to 15 digits a decimal and the double
    nearest to it determine each other, so the shortest spelling of the
    double is the decimal itself. *)
Definition spell (neg : bool) (ds : list ascii) (n : Z) : element :=
  let k := Z.of_nat (length ds) in
  let sign := if neg then ["-"%char] else [] in
  let text body := ENumber (string_of_list_ascii (sign ++ body)) in
  if (k <=? n)%Z then
    text (ds ++ zeros (Z.to_nat (n - k)))
  else if Nat.ltb 15 (length ds) then Unrendered
  else if (n <? -300)%Z then Unrendered
  else if (0 <? n)%Z then
    text (take (Z.to_nat n) ds ++ "."%char :: drop (Z.to_nat n) ds)
  else if (-6 <? n)%Z then
    text ("0"%char :: "."%char :: zeros (Z.to_nat (- n)) ++ ds)
  else
    let e := list_ascii_of_string (of_N (Z.to_N (1 - n))) in
    match ds with
    | [d] => text (d :: "e"%char :: "-"%char :: e)
    | d :: ds' => text (d :: "."%char :: ds' ++ "e"%char :: "-"%char :: e)
    | [] => Unrendered
    end.

(** [maybeCoerceNumber] for a key that is not declared a string or a
    boolean: what looks like a number and whose integer part is a safe
    integer becomes a number. *)
Definition maybeCoerceNumber (s : string) : element :=
  let cs := list_ascii_of_string s in
  match read_hex cs with
  | Some ds =>
      let v := number_of 16 hex_value ds in
      if (v <=? MAX_SAFE_INTEGER)%N then ENumber (of_N v) else Unrendered
  | None =>
      if leading_zero cs then EString s
      else
        match read_decimal cs with
        | None => EString s
        | Some d =>
            let '(digits, stripped) := strip_zeros (int_part d ++ frac_part d) in
            let ds := rev (fst (strip_zeros (rev digits))) in
            let n := (Z.of_nat (length (int_part d)) - Z.of_nat stripped + exponent d)%Z in
            match ds with
            | [] => ENumber "0"
            | _ :: _ =>
                if (16 <? n)%Z then EString s
                else if (Z.of_nat (length ds) <=? n)%Z then
                  let v := (number_of 10 digit_value ds
                            * 10 ^ Z.to_N (n - Z.of_nat (length ds)))%N in
                  if (v <=? MAX_SAFE_INTEGER)%N then spell (negative d) ds n
                  else EString s
                else spell (negative d) ds n
            end
        end
  end.

(** [String(e)] of an array element. *)
Definition spelling_of (e : element) : option string :=
  match e with
  | EString s => Some s
  | ENumber s => Some s
  | Unrendered => None
  end.

(** [Array.prototype.join] on the elements of a parsed array. *)
Definition join_elements (l : list element) (sep : string) : option string :=
  (fun ss => join ss sep) <$> mapM spelling_of l.

(** *** Parsed arguments *)

(** The values found in a parsed-arguments object. *)
Inductive value :=
| VOne (x : element)
| VArray (xs : list element).

(** The parsed-arguments object handed to a handler: a JavaScript object
    used as a map from parameter names to values. *)
Abbreviation arguments := (gmap string value).

(** Interpolation [`${e}`] of a possibly absent property in a template
    literal: [undefined] prints as such, an array prints its elements
    joined by commas. *)
Definition interpolate (e : option value) : option string :=
  match e with
  | None => Some "undefined"
  | Some (VOne x) => spelling_of x
  | Some (VArray xs) => join_elements xs ","
  end.

(** [x || undefined] for a string, and what [console.log] prints for it. *)
Definition or_undefined (s : string) : option string :=
  if String.eqb s "" then None else Some s.

Definition log_text (x : option string) : string :=
  match x with
  | Some s => s
  | None => "undefined"
  end.

(** *** Blank strings

    [s.trim()] is empty when [s] holds white space and line terminators
    only.  A string is a sequence of UTF-8 bytes here; the white space of
    JavaScript is TAB, LF, VT, FF, CR, SP, U+00A0, U+1680, U+2000 to U+200A,
    U+2028, U+2029, U+202F, U+205F, U+3000 and U+FEFF. *)
Definition is_space (c : nat) : bool :=
  (Nat.leb 9 c && Nat.leb c 13) || Nat.eqb c 32.

Fixpoint blank_bytes (cs : list nat) : bool :=
  match cs with
  | [] => true
  | c :: r =>
      if is_space c then blank_bytes r
      else
        match r with
        | c1 :: r1 =>
            if Nat.eqb c 194 && Nat.eqb c1 160 then blank_bytes r1
            else
              match r1 with
              | c2 :: r2 =>
                  if (Nat.eqb c 225 && Nat.eqb c1 154 && Nat.eqb c2 128)
                     || (Nat.eqb c 226 && Nat.eqb c1 128
                         && ((Nat.leb 128 c2 && Nat.leb c2 138)
                             || Nat.eqb c2 168 || Nat.eqb c2 169 || Nat.eqb c2 175))
                     || (Nat.eqb c 226 && Nat.eqb c1 129 && Nat.eqb c2 159)
                     || (Nat.eqb c 227 && Nat.eqb c1 128 && Nat.eqb c2 128)
                     || (Nat.eqb c 239 && Nat.eqb c1 187 && Nat.eqb c2 191)
                  then blank_bytes r2
                  else false
              | [] => false
              end
        | [] => false
        end
  end.

(** [!s.trim()]. *)
Definition trim_is_empty (s : string) : bool :=
  blank_bytes (map code (list_ascii_of_string s)).

Definition quotation_mark : string := String (ascii_of_nat 34) "".

End Js.
(** ** Help screens

    The text yargs prints for [--help] (and before an error message) is
    rendered from the usage line, the description of the command in whose
    context it is shown, the table of commands and the described parameters.
    The screen is kept as that data; its layout (column widths, wrapping to
    the terminal width, the two global options listed on every screen) is
    not part of the model. *)

Record help_screen := {
  hs_usage : string;
  hs_about : option string;
  hs_commands : list (string * string);
  hs_params : list (string * string)
}.

Definition help_screen_eqb (a b : help_screen) : bool :=
  bool_decide (hs_usage a = hs_usage b) &&
  bool_decide (hs_about a = hs_about b) &&
  bool_decide (hs_commands a = hs_commands b) &&
  bool_decide (hs_params a = hs_params b).

(** ** Process effects *)

(** ** Process effects *)

Module Proc.

(** What is written to a stream: a line of text, or a help screen. *)
Inductive chunk :=
| Line (s : string)
| Help (h : help_screen).

Record output := { stdout : list chunk; stderr : list chunk }.

Definition silent : output := {| stdout := []; stderr := [] |}.

(** A computation either is still running with a result, or has called
    [process.exit], or has left what this development works out (an
    argument vector yargs' parser is not followed on, or a number whose
    spelling is not computed). *)
Inductive status (A : Type) :=
| Running (a : A)
| Exited (code : Z)
| Uncovered.
Arguments Running {A} a.
Arguments Exited {A} code.
Arguments Uncovered {A}.

Definition proc (A : Type) : Type := output -> output * status A.

Definition ret {A} (a : A) : proc A := fun o => (o, Running a).

Definition bind {A B} (m : proc A) (k : A -> proc B) : proc B :=
  fun o =>
    match m o with
    | (o', Running a) => k a o'
    | (o', Exited c) => (o', Exited c)
    | (o', Uncovered) => (o', Uncovered)
    end.

Definition write_stdout (c : chunk) : proc unit :=
  fun o => ({| stdout := stdout o ++ [c]; stderr := stderr o |}, Running tt).

Definition write_stderr (c : chunk) : proc unit :=
  fun o => ({| stdout := stdout o; stderr := stderr o ++ [c] |}, Running tt).

(** [console.log(s)] and [console.error(s)]. *)
Definition console_log (s : string) : proc unit := write_stdout (Line s).
Definition console_error (s : string) : proc unit := write_stderr (Line s).

(** [console.error()] without an argument.  The script runs under bun
    (its first line is [#!/usr/bin/env bun], and the tests spawn
    [process.execPath]), whose [console.error] writes the line break of an
    empty call to stdout, not to stderr. *)
Definition console_error_empty : proc unit := write_stdout (Line "").

(** [process.exit(code)]. *)
Definition process_exit {A} (code : Z) : proc A := fun o => (o, Exited code).

Definition uncovered {A} : proc A := fun o => (o, Uncovered).

(** [console.log] of a string that may not have been worked out. *)
Definition console_log_if (s : option string) : proc unit :=
  match s with
  | Some s => console_log s
  | None => uncovered
  end.

(** What the caller of the process observes ([spawnSync] in the tests):
    both streams and the exit code; a script that runs to its end exits
    with code 0. *)
Record outcome := {
  out : list chunk;
  err : list chunk;
  exit_code : Z
}.

Definition run (p : proc unit) : option outcome :=
  match p silent with
  | (o, Running _) => Some {| out := stdout o; err := stderr o; exit_code := 0 |}
  | (o, Exited c) => Some {| out := stdout o; err := stderr o; exit_code := c |}
  | (_, Uncovered) => None
  end.

End Proc.

(** The monad structure, so that scripts are written with stdpp's
    [x ← m; k] and [m ;; k]. *)
#[global] Instance proc_ret : MRet Proc.proc := @Proc.ret.
#[global] Instance proc_bind : MBind Proc.proc := fun A B k m => Proc.bind m k.

(** ** The yargs library, as far as the script relies on it

    yargs is a dependency of the repository, its code is not part of it;
    the definitions below follow the behaviour of yargs 17 (the version
    whose typings export [ArgumentsCamelCase]) and of its parser for the
    calls the script makes: [scriptName], [usage], [help], [version],
    [alias], [command], [positional], [option], [strict], [demandCommand],
    [parse] and [showHelp].  Messages are the English ones; the locale and
    the width of the terminal, which yargs reads from the environment, are
    not part of the model. *)

Module Yargs.

Import Js Proc.

(** *** Command strings: [parseCommand]

    A command string is the command name followed by its positionals,
    [<name>] for a demanded and [[name]] for an optional one; dots before
    the closing bracket of the last one make it variadic. *)

Record positional := {
  pos_name : string;
  pos_demanded : bool;
  pos_variadic : bool
}.

Fixpoint split_spaces (s : string) : list string :=
  match s with
  | "" => [""]
  | String c rest =>
      let r := split_spaces rest in
      if Ascii.eqb c " " then "" :: r
      else match r with
           | [] => [String c ""]
           | w :: ws => String c w :: ws
           end
  end.

Definition nonempty (s : string) : bool := negb (String.eqb s "").

Definition is_bracket (c : ascii) : bool :=
  Ascii.eqb c "[" || Ascii.eqb c "]" || Ascii.eqb c "<" || Ascii.eqb c ">".

Definition is_closing (c : ascii) : bool := Ascii.eqb c "]" || Ascii.eqb c ">".

(** [s.replace(/\.*[\][<>]/g, '')]: brackets go, and so do the dots that
    lead up to one.  The boolean tells whether [s] starts with such a run. *)
Fixpoint strip_brackets_aux (s : string) : string * bool :=
  match s with
  | "" => ("", false)
  | String c rest =>
      let '(r, b) := strip_brackets_aux rest in
      if is_bracket c then (r, true)
      else if Ascii.eqb c "." && b then (r, true)
      else (String c r, false)
  end.

Definition strip_brackets (s : string) : string := fst (strip_brackets_aux s).

(** [/\.+[\]>]/.test(s)]; the second boolean tells whether [s] starts with
    dots (possibly none) followed by a closing bracket. *)
Fixpoint dots_then_closing (s : string) : bool * bool :=
  match s with
  | "" => (false, false)
  | String c rest =>
      let '(found, b) := dots_then_closing rest in
      if Ascii.eqb c "." then (found || b, b)
      else (found, is_closing c)
  end.

Definition starts_with_bracket (s : string) : bool :=
  match s with
  | String c _ => Ascii.eqb c "["
  | "" => false
  end.

Fixpoint parse_positionals (l : list string) : list positional :=
  match l with
  | [] => []
  | p :: l' =>
      {| pos_name := strip_brackets p;
         pos_demanded := negb (starts_with_bracket p);
         pos_variadic := match l' with
                         | [] => fst (dots_then_closing p)
                         | _ :: _ => false
                         end |} :: parse_positionals l'
  end.

Definition parseCommand (cmd : string) : string * list positional :=
  match filter (fun w => nonempty w = true) (split_spaces cmd) with
  | [] => ("", [])
  | name :: ps => (strip_brackets name, parse_positionals ps)
  end.

(** *** The command table *)

Inductive param_type := TString | TArray.

(** A parameter described by a command's builder
    ([yargs.positional(name, {...})], [yargs.option(name, {...})] or an
    entry of a builder object). *)
Record param := {
  param_name : string;
  param_describe : string;
  param_type_of : param_type;
  demandOption : bool
}.

(** A handler receives the parsed arguments.  Its first argument stands for
    the [cli] variable a handler may close over, of which only [showHelp]
    is ever called. *)
Definition handler_fn : Type := proc unit -> arguments -> proc unit.

Record command := {
  cmd : string;
  describe : string;
  builder : list param;
  handler : handler_fn
}.

Definition cmd_name (c : command) : string := fst (parseCommand (cmd c)).
Definition cmd_positionals (c : command) : list positional := snd (parseCommand (cmd c)).

(** The default command is the one declared as ["$0"] (or ["*"]). *)
Definition is_default (c : command) : bool :=
  String.eqb (cmd_name c) "$0" || String.eqb (cmd_name c) "*".

Record yargs := {
  scriptName : string;
  usage : string;
  help_aliases : list string;
  version : string;
  version_aliases : list string;
  commands : list command;
  strict : bool;
  demandCommand : option (nat * string)
}.

Definition defaultCommand (y : yargs) : option command :=
  find is_default (commands y).

(** [handlers[word]]: a word names a command when it is the first word of
    its command string. *)
Definition find_command (y : yargs) (word : string) : option command :=
  find (fun c => String.eqb (cmd_name c) word) (commands y).

(** *** Help screens *)

(** [$0] in a usage string stands for the script name. *)
Fixpoint subst_script (name s : string) : string :=
  match s with
  | "" => ""
  | String c rest =>
      match rest with
      | String d rest' =>
          if Ascii.eqb c "$" && Ascii.eqb d "0"
          then name +:+ subst_script name rest'
          else String c (subst_script name rest)
      | "" => String c ""
      end
  end.

(** The help of the script itself lists every command with its description. *)
Definition root_help (y : yargs) : help_screen :=
  {| hs_usage := subst_script (scriptName y) (usage y);
     hs_about := None;
     hs_commands := map (fun c => (cmd c, describe c)) (commands y);
     hs_params := [] |}.

(** The help of a command shows its own usage, description and parameters. *)
Definition command_help (y : yargs) (c : command) : help_screen :=
  {| hs_usage := scriptName y +:+ " " +:+ cmd c;
     hs_about := Some (describe c);
     hs_commands := [];
     hs_params := map (fun p => (param_name p, param_describe p)) (builder c) |}.

(** *** Reading the argument vector: [yargs-parser]

    The parser is followed on argument vectors made of these tokens:

    - words: any token that does not start with a dash; they go to
      [argv._] as they are (yargs turns the parsing of numbers off for
      [argv._] in this pass);
    - the declared flags, each a token of its own ([--help], [-h],
      [--version], [-v]); they are booleans, so a following [true] or
      [false] is taken as the value, and of several settings the last
      one counts;
    - their negations ([--no-help], [--no-h], [--no-version], [--no-v]);
    - undeclared long options [--name], the name made of two or more small
      letters: such an option takes the next token as its value unless that
      starts with a dash, and its name becomes a key of the parsed
      arguments;
    - [--] as the last token, which ends the options.

    Other tokens (groups of short options, [--key=value], dotted and
    hyphenated keys, a dash alone, negative numbers, options a command
    declares, [--] before further tokens) are not followed. *)

Definition flag_token (name : string) : string :=
  if Nat.eqb (String.length name) 1 then "-" +:+ name else "--" +:+ name.

Definition is_flag (aliases : list string) (a : string) : bool :=
  includes (map flag_token aliases) a.

Definition negation (name : string) : string := "--no-" +:+ name.

Definition is_negation (aliases : list string) (a : string) : bool :=
  includes (map negation aliases) a.

Definition is_letter (c : ascii) : bool :=
  let n := nat_of_ascii c in
  (Nat.leb 65 n && Nat.leb n 90) || (Nat.leb 97 n && Nat.leb n 122).

Definition is_small_letter (c : ascii) : bool :=
  let n := nat_of_ascii c in Nat.leb 97 n && Nat.leb n 122.

Definition starts_with_dash (a : string) : bool :=
  match a with
  | String c _ => Ascii.eqb c "-"
  | "" => false
  end.

(** [/^(true|false)$/]. *)
Definition is_boolean_word (a : string) : bool :=
  String.eqb a "true" || String.eqb a "false".

(** The key of a long option whose name is made of small letters. *)
Definition long_option (a : string) : option string :=
  match a with
  | String c (String d k) =>
      if Ascii.eqb c "-" && Ascii.eqb d "-" && Nat.leb 2 (String.length k)
         && forallb is_small_letter (list_ascii_of_string k)
      then Some k else None
  | _ => None
  end.

(** The options the table declares: the two flags with their aliases and
    the parameters of the commands. *)
Definition option_names (y : yargs) : list string :=
  help_aliases y ++ version_aliases y
  ++ flat_map (fun c => map param_name (builder c)) (commands y).

(** The words that are no plain component names: [help], the implicit
    command that [.help()] installs, and [true] and [false], which are
    taken as the value of a flag they follow. *)
Definition special_words : list string := ["help"; "true"; "false"].

(** A plain word starts with a letter and is none of the special words. *)
Definition plain_word (a : string) : bool :=
  match a with
  | String c _ => is_letter c && negb (includes special_words a)
  | "" => false
  end.

(** What the parser hands to yargs: the two flags as far as they were
    set, the keys of the undeclared options in the order of their first
    appearance, and [argv._]. *)
Record parsed := {
  argv_help : option bool;
  argv_version : option bool;
  argv_keys : list string;
  words : list string
}.

Definition nothing : parsed :=
  {| argv_help := None; argv_version := None; argv_keys := []; words := [] |}.

(** The settings below are applied from the last token to the first: a
    flag that a later token has set keeps that value. *)
Definition set_help (b : bool) (p : parsed) : parsed :=
  {| argv_help := Some (default b (argv_help p));
     argv_version := argv_version p;
     argv_keys := argv_keys p;
     words := words p |}.

Definition set_version (b : bool) (p : parsed) : parsed :=
  {| argv_help := argv_help p;
     argv_version := Some (default b (argv_version p));
     argv_keys := argv_keys p;
     words := words p |}.

Definition add_key (k : string) (p : parsed) : parsed :=
  {| argv_help := argv_help p;
     argv_version := argv_version p;
     argv_keys := k :: List.filter (fun k' => negb (String.eqb k k')) (argv_keys p);
     words := words p |}.

Definition add_word (w : string) (p : parsed) : parsed :=
  {| argv_help := argv_help p;
     argv_version := argv_version p;
     argv_keys := argv_keys p;
     words := w :: words p |}.

Fixpoint tokens (y : yargs) (args : list string) : option parsed :=
  match args with
  | [] => Some nothing
  | a :: rest =>
      if is_flag (help_aliases y) a then
        match rest with
        | b :: rest' =>
            if is_boolean_word b
            then set_help (String.eqb b "true") <$> tokens y rest'
            else set_help true <$> tokens y rest
        | [] => Some (set_help true nothing)
        end
      else if is_flag (version_aliases y) a then
        match rest with
        | b :: rest' =>
            if is_boolean_word b
            then set_version (String.eqb b "true") <$> tokens y rest'
            else set_version true <$> tokens y rest
        | [] => Some (set_version true nothing)
        end
      else if is_negation (help_aliases y) a then set_help false <$> tokens y rest
      else if is_negation (version_aliases y) a then set_version false <$> tokens y rest
      else
        match long_option a with
        | Some k =>
            if includes (option_names y) k then None
            else
              match rest with
              | b :: rest' =>
                  if starts_with_dash b
                  then add_key k <$> tokens y rest
                  else add_key k <$> tokens y rest'
              | [] => Some (add_key k nothing)
              end
        | None =>
            if String.eqb a "--" then
              match rest with
              | [] => Some nothing
              | _ :: _ => None
              end
            else if starts_with_dash a then None
            else add_word a <$> tokens y rest
        end
  end.

(** A first word that spells the default command itself ([$0]) is not
    followed either. *)
Definition scan (y : yargs) (args : list string) : option parsed :=
  p ← tokens y args;
  match words p with
  | w :: _ =>
      match find_command y w with
      | Some c => if is_default c then None else Some p
      | None => Some p
      end
  | [] => Some p
  end.

(** *** Validation *)

Inductive failure :=
| NotEnoughNonOptionArguments (got need : nat)
| MissingRequiredArguments (keys : list string)
| UnknownArguments (unknown : list string)
| DemandedCommand (msg : string).

(** [__n(singular, plural, count)]. *)
Definition plural (n : nat) (singular plural : string) : string :=
  if Nat.eqb n 1 then singular else plural.

(** A blank argument is shown between quotation marks. *)
Definition quoted (s : string) : string :=
  if trim_is_empty s then quotation_mark +:+ s +:+ quotation_mark else s.

Definition message (f : failure) : string :=
  match f with
  | NotEnoughNonOptionArguments got need =>
      "Not enough non-option arguments: got " +:+ of_nat got +:+
      ", need at least " +:+ of_nat need
  | MissingRequiredArguments keys =>
      plural (length keys) "Missing required argument: " "Missing required arguments: "
      +:+ join keys ", "
  | UnknownArguments unknown =>
      plural (length unknown) "Unknown argument: " "Unknown arguments: "
      +:+ join (map quoted unknown) ", "
  | DemandedCommand msg => msg
  end.

(** [validation.positionalCount]. *)
Definition positionalCount (required observed : nat) : option failure :=
  if Nat.ltb observed required
  then Some (NotEnoughNonOptionArguments observed required)
  else None.

(** [validation.nonOptionCount] for [demandCommand(min, msg)]; the message
    of the script has no placeholder to fill in. *)
Definition nonOptionCount (demanded : option (nat * string)) (ws : list string)
  : option failure :=
  match demanded with
  | Some (min, msg) => if Nat.ltb (length ws) min then Some (DemandedCommand msg) else None
  | None => None
  end.

(** [validation.requiredArguments]: the keys declared with [demandOption]
    that the parsed arguments lack. *)
Definition requiredArguments (ps : list param) (argv : arguments) : option failure :=
  match filter (fun k => argv !! k = None)
               (map param_name (filter (fun p => demandOption p = true) ps)) with
  | [] => None
  | missing => Some (MissingRequiredArguments missing)
  end.

(** [validation.unknownArguments]: first the keys of the parsed arguments
    that no option declares; then the words left in [argv._] after the
    commands of the context that name no command of the context; then,
    unless [demandCommand] allows any number of words, every word not
    reported yet. *)
Definition unknownArguments (commandKeys : list string)
    (demanded : option (nat * string)) (keys ws : list string) : option failure :=
  let first := keys ++ filter (fun w => includes commandKeys w = false) ws in
  let unknown :=
    match demanded with
    | Some _ => first
    | None => fold_left (fun acc w => if includes acc w then acc else acc ++ [w]) ws first
    end in
  match unknown with
  | [] => None
  | _ :: _ => Some (UnknownArguments unknown)
  end.

(** *** Positionals: [populatePositionals]

    The words a command takes are parsed a second time, as values of the
    keys of its positionals: a key declared a string keeps the word, any
    other key reads a word that looks like a number as that number. *)

Definition declared_string (types : list param) (k : string) : bool :=
  existsb (fun q => String.eqb (param_name q) k
                    && match param_type_of q with TString => true | TArray => false end)
          types.

Definition coerce (types : list param) (k w : string) : element :=
  if declared_string types k then EString w else maybeCoerceNumber w.

Fixpoint populatePositional (types : list param) (ps : list positional)
    (ws : list string) (argv : arguments) : arguments * list string :=
  match ps with
  | [] => (argv, ws)
  | p :: ps' =>
      if pos_variadic p then
        populatePositional types ps' []
          (<[pos_name p := VArray (map (coerce types (pos_name p)) ws)]> argv)
      else
        match ws with
        | w :: ws' =>
            populatePositional types ps' ws'
              (<[pos_name p := VOne (coerce types (pos_name p) w)]> argv)
        | [] => populatePositional types ps' [] argv
        end
  end.

Definition populatePositionals (c : command) (ws : list string)
  : arguments * list string :=
  let demanded := filter (fun p => pos_demanded p = true) (cmd_positionals c) in
  let optional := filter (fun p => pos_demanded p = false) (cmd_positionals c) in
  populatePositional (builder c) (demanded ++ optional) ws ∅.

(** *** Dispatch
    What an argument vector resolves to, before anything is executed. *)
Inductive decision :=
| ShowHelp (h : help_screen)
| ShowVersion
| Fail (h : help_screen) (f : failure)
| Invoke (c : command) (argv : arguments)
| Finish.

(** [helpOptSet] and [versionOptSet]: the flag is among the parsed
    arguments with a true value. *)
Definition helpOptSet (p : parsed) : bool := default false (argv_help p).
Definition versionOptSet (p : parsed) : bool := default false (argv_version p).

(** [.help()] also installs a command: when the last word is the name of
    the help option (an alias of more than one letter counts), the word is
    dropped and the help is asked for. *)
Definition helpCmds (y : yargs) : list string :=
  List.filter (fun k => Nat.ltb 1 (String.length k)) (help_aliases y).

Definition ends_with_help (y : yargs) (ws : list string) : bool :=
  match last ws with
  | Some w => includes (helpCmds y) w
  | None => false
  end.

Definition implicit_help (y : yargs) (p : parsed) : parsed :=
  if ends_with_help y (words p) then
    {| argv_help := Some true;
       argv_version := argv_version p;
       argv_keys := argv_keys p;
       words := removelast (words p) |}
  else p.

(** [command.runCommand] of yargs: inside a command the help and version flags are
    answered first; then the positionals are counted and bound, the parsed
    arguments validated, and only then is the handler due.  [rest] is
    [argv._] without the command name; inside a command no sub-command is
    declared and [demandCommand] (a setting of the top level) is reset. *)
Definition run_command (y : yargs) (c : command) (isDefaultCommand : bool)
    (p : parsed) (rest : list string) : decision :=
  let screen := if isDefaultCommand then root_help y else command_help y c in
  if helpOptSet p then ShowHelp screen
  else if versionOptSet p then ShowVersion
  else
    let demanded := filter (fun q => pos_demanded q = true) (cmd_positionals c) in
    match positionalCount (length demanded) (length rest) with
    | Some f => Fail screen f
    | None =>
        let '(argv, surplus) := populatePositionals c rest in
        match requiredArguments (builder c) argv with
        | Some f => Fail screen f
        | None =>
            match (if strict y
                   then unknownArguments [] None (argv_keys p) surplus
                   else None) with
            | Some f => Fail screen f
            | None => Invoke c argv
            end
        end
    end.

(** Without a command to run, the flags are answered, or the top-level
    validation applies: [demandCommand], then strict mode. *)
Definition no_command (y : yargs) (p : parsed) : decision :=
  match defaultCommand y with
  | Some c =>
      if helpOptSet p then ShowHelp (root_help y)
      else run_command y c true p (words p)
  | None =>
      if helpOptSet p then ShowHelp (root_help y)
      else if versionOptSet p then ShowVersion
      else
        match nonOptionCount (demandCommand y) (words p) with
        | Some f => Fail (root_help y) f
        | None =>
            match (if strict y
                   then unknownArguments (map cmd_name (commands y))
                                         (demandCommand y) (argv_keys p) (words p)
                   else None) with
            | Some f => Fail (root_help y) f
            | None => Finish
            end
        end
  end.

(** The first word selects the command; any other first word, or none,
    leaves it to the default command. *)
Definition dispatch (y : yargs) (p : parsed) : decision :=
  match words p with
  | w :: rest =>
      match find_command y w with
      | Some c => run_command y c false p rest
      | None => no_command y p
      end
  | [] => no_command y p
  end.

Definition resolve (y : yargs) (p : parsed) : decision :=
  dispatch y (implicit_help y p).

(** *** Execution *)

(** [cli.showHelp()]: the help of the script, on stderr. *)
Definition showHelp (y : yargs) : proc unit := write_stderr (Help (root_help y)).

(** [usage.fail]: [showHelp('error')], [logger.error()], then
    [logger.error(msg)] and exit code 1. *)
Definition fail (h : help_screen) (f : failure) : proc unit :=
  write_stderr (Help h);; console_error_empty;; console_error (message f);;
  process_exit 1.

(** [usage.showVersion]: [.version(ver)] keeps [ver || undefined], which
    [console.log] prints. *)
Definition showVersion (y : yargs) : proc unit :=
  console_log (log_text (or_undefined (version y))).

Definition perform (y : yargs) (d : decision) : proc unit :=
  match d with
  | ShowHelp h => write_stdout (Help h);; process_exit 0
  | ShowVersion => showVersion y;; process_exit 0
  | Fail h f => fail h f
  | Invoke c argv => handler c (showHelp y) argv
  | Finish => mret tt
  end.

(** [cli.parse()]. *)
Definition parse (y : yargs) (args : list string) : proc unit :=
  match scan y args with
  | Some p => perform y (resolve y p)
  | None => uncovered
  end.

(** [hideBin(process.argv)]: the arguments after the interpreter and the
    script. *)
Definition hideBin (process_argv : list string) : list string := slice 2 process_argv.

End Yargs.

(** ** The script [src/index.ts] *)

Module Index.

Import Js Proc Yargs.

(** The commands, in the order of the [.command(...)] calls. *)

Definition default_command (version : string) : command :=
  {| cmd := "$0";
     describe := "Displays version number";
     builder := [];
     handler := fun _ _ => console_log ("Refrescante version: " +:+ version) |}.

Definition init_command : command :=
  {| cmd := "init";
     describe := "Initialize the RefrescanteUI project in the current directory";
     builder := [];
     handler := fun _ _ => console_log "Initializing RefrescanteUI project..." |}.

Definition add_command : command :=
  {| cmd := "add <component-name>";
     describe := "Add a component to the project";
     builder := [ {| param_name := "component-name";
                     param_describe := "The name of the component to add";
                     param_type_of := TString;
                     demandOption := true |} ];
     handler := fun _ argv =>
       console_log_if
         (String.append "Adding component: " <$> interpolate (argv !! "component-name")) |}.

Definition remove_command : command :=
  {| cmd := "remove <component-name>";
     describe := "Remove a component from the project";
     builder := [ {| param_name := "component-name";
                     param_describe := "The name of the component to remove";
                     param_type_of := TString;
                     demandOption := true |} ];
     handler := fun _ argv =>
       console_log_if
         (String.append "Removing component: " <$> interpolate (argv !! "component-name")) |}.

(** [components?.length] is falsy for a missing and for an empty list.  A
    variadic positional is always bound to an array, the only kind of value
    with a [join]; the elements that yargs has read as numbers are joined
    in their spelling as numbers. *)
Definition upgrade_command : command :=
  {| cmd := "upgrade [components...]";
     describe := "Upgrade Refrescante package version and optionally specific components or all";
     builder := [ {| param_name := "components";
                     param_describe := "List of components to upgrade (leave blank to upgrade all)";
                     param_type_of := TArray;
                     demandOption := false |} ];
     handler := fun _ argv =>
       match argv !! "components" with
       | Some (VArray (c :: cs)) =>
           console_log_if
             (String.append "Upgrading components: " <$> join_elements (c :: cs) ", ")
       | Some (VArray []) | None =>
           console_log "Upgrading Refrescante package and all components..."
       | Some (VOne _) => uncovered
       end |}.

Definition wipe_command : command :=
  {| cmd := "wipe";
     describe := "Remove the Refrescante package from the project";
     builder := [];
     handler := fun _ _ => console_log "Wiping Refrescante package from the project..." |}.

Definition cli (version : string) : yargs :=
  {| scriptName := "refrescante";
     usage := "Usage: $0 <command> [options]";
     help_aliases := ["help"; "h"];
     Yargs.version := version;
     version_aliases := ["version"; "v"];
     commands := [ default_command version; init_command; add_command;
                   remove_command; upgrade_command; wipe_command ];
     strict := true;
     demandCommand := Some (1, "You need to specify a command") |}.

(** The standalone version flag, handled before yargs is set up. *)
Definition version_guard (version : string) (process_argv : list string) : proc unit :=
  if includes process_argv "--version"
  then console_log version;; process_exit 0
  else mret tt.

(** The script, for the version read from package.json. *)
Definition main (version : string) (process_argv : list string) : proc unit :=
  version_guard version process_argv;;
  parse (cli version) (hideBin process_argv).

End Index.

(** ** The variant in [src/unnamed/part_000]

    It has the same guard and the same named commands ([upgrade] declares
    its parameter through [yargs.option] instead of a builder object); the
    default command has another description and also shows the help. *)

Module Part000.

Import Js Proc Yargs.

Definition default_command (version : string) : command :=
  {| cmd := "$0";
     describe := "Displays version and help message";
     builder := [];
     handler := fun cli_showHelp _ =>
       console_log ("Refrescante version: " +:+ version);;
       cli_showHelp |}.

Definition cli (version : string) : yargs :=
  {| scriptName := "refrescante";
     usage := "Usage: $0 <command> [options]";
     help_aliases := ["help"; "h"];
     Yargs.version := version;
     version_aliases := ["version"; "v"];
     commands := [ default_command version; Index.init_command; Index.add_command;
                   Index.remove_command; Index.upgrade_command; Index.wipe_command ];
     strict := true;
     demandCommand := Some (1, "You need to specify a command") |}.

Definition main (version : string) (process_argv : list string) : proc unit :=
  Index.version_guard version process_argv;;
  parse (cli version) (hideBin process_argv).

End Part000.

(** ** Running the script: [runCommand] of [src/index.test.ts]

    The test spawns the interpreter on [CLI_PATH] followed by the arguments
    and observes stdout, stderr and the exit code. *)

Definition execPath : string := "bun".
Definition CLI_PATH : string := "./index.ts".

(** The version string with which the tests are replayed; the script
    takes whatever string package.json holds. *)
Definition PKG_VERSION : string := "0.1.0".

Definition spawnSync (script : list string -> Proc.proc unit) (process_argv : list string)
  : option Proc.outcome :=
  Proc.run (script process_argv).

Definition runCommand (version : string) (args : list string) : option Proc.outcome :=
  spawnSync (Index.main version) (execPath :: CLI_PATH :: args).

Definition runCommand_part000 (version : string) (args : list string)
  : option Proc.outcome :=
  spawnSync (Part000.main version) (execPath :: CLI_PATH :: args).

(** ** Notions used in the statements *)

Import Js Proc Yargs.

(** The tokens of the plain invocations: the declared flags and plain
    words. *)
Definition token_ok (a : string) : bool :=
  is_flag ["help"; "h"] a || is_flag ["version"; "v"] a || plain_word a.

(** A word is a token that does not start with a dash; a component name
    on the command line is a word. *)
Definition is_word (a : string) : bool := negb (starts_with_dash a).

(** A word whose spelling as an array element is worked out: any word that
    yargs leaves a string, and a number of at most 15 significant digits
    (or a safe integer). *)
Definition rendered (a : string) : bool :=
  match maybeCoerceNumber a with
  | Unrendered => false
  | _ => true
  end.

(** The argument vectors on which the script is followed to its end: those
    with a literal [--version], which the script answers itself, and those
    made of the tokens the parser is followed on, the words being rendered
    and other than [$0]. *)
Definition followed_token (y : yargs) (a : string) : bool :=
  is_flag (help_aliases y) a || is_flag (version_aliases y) a
  || is_negation (help_aliases y) a || is_negation (version_aliases y) a
  || match long_option a with
     | Some k => negb (includes (option_names y) k)
     | None => is_word a && negb (String.eqb a "$0") && rendered a
     end.

Fixpoint followed_tokens (y : yargs) (args : list string) : bool :=
  match args with
  | [] => true
  | a :: rest =>
      (followed_token y a
       || (String.eqb a "--" && match rest with [] => true | _ :: _ => false end))
      && followed_tokens y rest
  end.

Definition followed (version : string) (args : list string) : bool :=
  includes args "--version" || followed_tokens (Index.cli version) args.

(** The readings of the parser as a relation between an argument vector
    and the parsed arguments, one rule for each kind of token. *)
Inductive reads (y : yargs) : list string -> parsed -> Prop :=
| reads_nil : reads y [] nothing
| reads_help a rest q :
    is_flag (help_aliases y) a = true ->
    match rest with b :: _ => is_boolean_word b = false | [] => True end ->
    reads y rest q -> reads y (a :: rest) (set_help true q)
| reads_help_value a b rest q :
    is_flag (help_aliases y) a = true -> is_boolean_word b = true ->
    reads y rest q -> reads y (a :: b :: rest) (set_help (String.eqb b "true") q)
| reads_version a rest q :
    is_flag (help_aliases y) a = false ->
    is_flag (version_aliases y) a = true ->
    match rest with b :: _ => is_boolean_word b = false | [] => True end ->
    reads y rest q -> reads y (a :: rest) (set_version true q)
| reads_version_value a b rest q :
    is_flag (help_aliases y) a = false ->
    is_flag (version_aliases y) a = true -> is_boolean_word b = true ->
    reads y rest q -> reads y (a :: b :: rest) (set_version (String.eqb b "true") q)
| reads_no_help a rest q :
    is_negation (help_aliases y) a = true ->
    reads y rest q -> reads y (a :: rest) (set_help false q)
| reads_no_version a rest q :
    is_negation (version_aliases y) a = true ->
    reads y rest q -> reads y (a :: rest) (set_version false q)
| reads_key a k rest q :
    long_option a = Some k -> includes (option_names y) k = false ->
    match rest with b :: _ => starts_with_dash b = true | [] => True end ->
    reads y rest q -> reads y (a :: rest) (add_key k q)
| reads_key_value a k b rest q :
    long_option a = Some k -> includes (option_names y) k = false ->
    starts_with_dash b = false ->
    reads y rest q -> reads y (a :: b :: rest) (add_key k q)
| reads_end : reads y ["--"] nothing
| reads_word a rest q :
    is_word a = true ->
    reads y rest q -> reads y (a :: rest) (add_word a q).

(** A token matches a declared command or flag of the script. *)
Definition declared (y : yargs) (a : string) : bool :=
  includes (map cmd_name (commands y)) a
  || is_flag (help_aliases y) a || is_flag (version_aliases y) a.

(** The named commands of the script, and the one a word selects. *)
Inductive name := Init | Add | Remove | Upgrade | Wipe.

Definition name_of (w : string) : option name :=
  if String.eqb "init" w then Some Init
  else if String.eqb "add" w then Some Add
  else if String.eqb "remove" w then Some Remove
  else if String.eqb "upgrade" w then Some Upgrade
  else if String.eqb "wipe" w then Some Wipe
  else None.

Definition command_of (n : name) : command :=
  match n with
  | Init => Index.init_command
  | Add => Index.add_command
  | Remove => Index.remove_command
  | Upgrade => Index.upgrade_command
  | Wipe => Index.wipe_command
  end.

(** The same command table with every handler replaced: what is observed
    for all [h] does not come from a handler. *)
Definition rewire_command (h : handler_fn) (c : command) : command :=
  {| cmd := cmd c; describe := describe c; builder := builder c; handler := h |}.

Definition rewire (h : handler_fn) (y : yargs) : yargs :=
  {| scriptName := scriptName y;
     usage := usage y;
     help_aliases := help_aliases y;
     version := version y;
     version_aliases := version_aliases y;
     commands := map (rewire_command h) (commands y);
     strict := strict y;
     demandCommand := demandCommand y |}.

Definition rewire_decision (h : handler_fn) (dec : decision) : decision :=
  match dec with
  | Invoke c argv => Invoke (rewire_command h c) argv
  | other => other
  end.

(** The decision an argument vector resolves to. *)
Definition decide_args (y : yargs) (args : list string) : option decision :=
  resolve y <$> scan y args.

(** The words of an invocation that are neither the command name in first
    position nor taken by a positional of that command: [init] and [wipe]
    take none, [add] and [remove] one, [upgrade] all of them; without a
    command name in first position no word is taken. *)
Definition surplus_words (ws : list string) : list string :=
  match ws with
  | [] => []
  | w :: rest =>
      match name_of w with
      | None => ws
      | Some Init | Some Wipe => rest
      | Some Add | Some Remove => tail rest
      | Some Upgrade => []
      end
  end.

(** The first word does not spell the default command itself. *)
Definition named_first (ws : list string) : bool :=
  match ws with
  | w :: _ => negb (String.eqb "$0" w)
  | [] => true
  end.

(** What strict mode objects to in a parsed argument vector: the undeclared
    options, then the surplus words. *)
Definition offending (p : parsed) : list string :=
  argv_keys p ++ surplus_words (words p).

(** [add] and [remove] are followed by the word they require. *)
Definition name_given (ws : list string) : bool :=
  match ws with
  | w :: rest =>
      match name_of w with
      | Some Add | Some Remove => negb (Nat.eqb (length rest) 0)
      | _ => true
      end
  | [] => true
  end.

(** An outcome shows a given help screen on one of its streams. *)
Definition is_help (h : help_screen) (c : chunk) : bool :=
  match c with
  | Help h' => help_screen_eqb h h'
  | Line _ => false
  end.

Definition displays (h : help_screen) (o : outcome) : bool :=
  existsb (is_help h) (out o ++ err o).

(** The outcome of a run that prints one line and completes. *)
Definition printed (line : string) : outcome :=
  {| out := [Line line]; err := []; exit_code := 0 |}.

(** The outcome of a failure report: the help screen and the message on
    stderr, the empty line on stdout, exit code 1. *)
Definition reported (h : help_screen) (msg : string) : outcome :=
  {| out := [Line ""]; err := [Help h; Line msg]; exit_code := 1 |}.

(** ** The dispatch table of the specification

    Section 6 of the specification gives the interface as a table from the
    command and its arguments to what is printed.  [classify] is that
    table, written without reference to yargs: from the flags, the
    undeclared options and the words of an invocation to a verdict in the
    context of a named command, or of the script itself ([None]). *)

Inductive verdict :=
| Helps (context : option name)
| Versions
| Fails (context : option name) (f : failure)
| Invokes (context : option name) (argv : arguments).

(** Strict mode at the end of a command: the undeclared options and the
    words its positionals did not take are rejected, otherwise the handler
    is due. *)
Definition strictly (context : option name) (argv : arguments)
    (unknown : list string) : verdict :=
  match unknown with
  | [] => Invokes context argv
  | _ :: _ => Fails context (UnknownArguments unknown)
  end.

Definition classify_words (keys ws : list string) : verdict :=
  match ws with
  | [] => strictly None ∅ keys
  | w :: rest =>
      match name_of w with
      | None => Fails None (UnknownArguments (keys ++ w :: rest))
      | Some Init => strictly (Some Init) ∅ (keys ++ rest)
      | Some Wipe => strictly (Some Wipe) ∅ (keys ++ rest)
      | Some Upgrade =>
          strictly (Some Upgrade)
            {[ "components" := VArray (map maybeCoerceNumber rest) ]} keys
      | Some n =>
          match rest with
          | [] => Fails (Some n) (NotEnoughNonOptionArguments 0 1)
          | c :: rest' =>
              strictly (Some n) {[ "component-name" := VOne (EString c) ]}
                       (keys ++ rest')
          end
      end
  end.

(** The context a list of words selects. *)
Definition context (ws : list string) : option name :=
  match ws with
  | w :: _ => name_of w
  | [] => None
  end.

(** The help is asked for by a help flag left true or by a last word
    [help], which is then no word of the command line. *)
Definition help_word (ws : list string) : bool :=
  bool_decide (last ws = Some "help").

Definition asks_for_help (p : parsed) : bool := helpOptSet p || help_word (words p).

Definition classify (p : parsed) : verdict :=
  if asks_for_help p then
    Helps (context (if help_word (words p) then removelast (words p) else words p))
  else if versionOptSet p then Versions
  else classify_words (argv_keys p) (words p).

(** How a table with default command [d] carries out a verdict. *)
Definition screen (y : yargs) (context : option name) : help_screen :=
  match context with
  | None => root_help y
  | Some n => command_help y (command_of n)
  end.

Definition realise (y : yargs) (d : command) (v : verdict) : decision :=
  match v with
  | Helps context => ShowHelp (screen y context)
  | Versions => ShowVersion
  | Fails context f => Fail (screen y context) f
  | Invokes context argv =>
      Invoke (match context with None => d | Some n => command_of n end) argv
  end.

(** What is observed when a table carries out a verdict. *)
Definition observe (y : yargs) (d : command) (v : verdict) : option outcome :=
  Proc.run (perform y (realise y d v)).

(** ** Shapes of an argument vector

    The command strings of the table fix how many words follow a command
    name: none after [init] and [wipe], exactly one after [add] and
    [remove] ([<component-name>]), any number after [upgrade]
    ([[components...]]); no word at all selects the default command. *)
Definition valid_form (ws : list string) : bool :=
  match ws with
  | [] => true
  | w :: rest =>
      match name_of w with
      | Some Init | Some Wipe => Nat.eqb (length rest) 0
      | Some Add | Some Remove => Nat.eqb (length rest) 1
      | Some Upgrade => true
      | None => false
      end
  end.

(** The plain words of an argument vector, in their order, and the named
    command the first of them selects. *)
Definition words_of (args : list string) : list string := List.filter plain_word args.

Definition context_of (args : list string) : option name :=
  match words_of args with
  | w :: _ => name_of w
  | [] => None
  end.

(** The spellings of the two flags declared by [.help().alias("h", "help")]
    and [.version(version).alias("v", "version")]. *)
Definition asks_help (args : list string) : bool :=
  existsb (is_flag ["help"; "h"]) args.

Definition asks_version (args : list string) : bool :=
  existsb (is_flag ["version"; "v"]) args.

(** What [upgrade] prints for a list of names. *)
Definition upgrade_line (names : list string) : option string :=
  match names with
  | [] => Some "Upgrading Refrescante package and all components..."
  | _ :: _ =>
      String.append "Upgrading components: "
        <$> join_elements (map maybeCoerceNumber names) ", "
  end.

(** The line the interface table of section 6 gives for a named command and
    the words that follow it. *)
Definition table_line (ws : list string) : option string :=
  match ws with
  | [] => None
  | w :: rest =>
      match name_of w with
      | Some Init => Some "Initializing RefrescanteUI project..."
      | Some Add => String.append "Adding component: " <$> head rest
      | Some Remove => String.append "Removing component: " <$> head rest
      | Some Upgrade => upgrade_line rest
      | Some Wipe => Some "Wiping Refrescante package from the project..."
      | None => None
      end
  end.

(** The parsed arguments a named command is invoked with. *)
Definition bound_arguments (ws : list string) : arguments :=
  match ws with
  | [] => ∅
  | w :: rest =>
      match name_of w with
      | Some Upgrade => {[ "components" := VArray (map maybeCoerceNumber rest) ]}
      | Some Add | Some Remove =>
          match rest with
          | c :: _ => {[ "component-name" := VOne (EString c) ]}
          | [] => ∅
          end
      | _ => ∅
      end
  end.

(** What a table of the shape of the script does with the parsed
    arguments, outcome by outcome; [by_default] is what its default
    command does. *)
Definition expected (y : yargs) (by_default : outcome) (p : parsed) : option outcome :=
  if asks_for_help p then
    Some {| out := [Help (screen y (context (if help_word (words p)
                                             then removelast (words p)
                                             else words p)))];
            err := [];
            exit_code := 0 |}
  else if versionOptSet p then Some (printed (log_text (or_undefined (version y))))
  else if name_given (words p) then
    match offending p with
    | [] =>
        match words p with
        | [] => Some by_default
        | _ :: _ => printed <$> table_line (words p)
        end
    | _ :: _ =>
        Some (reported (screen y (context (words p)))
                       (message (UnknownArguments (offending p))))
    end
  else
    Some (reported (screen y (context (words p)))
                   (message (NotEnoughNonOptionArguments 0 1))).

(** What the default command does in each variant. *)
Definition default_index (version : string) : outcome :=
  printed ("Refrescante version: " +:+ version).

Definition default_part000 (version : string) : outcome :=
  {| out := [Line ("Refrescante version: " +:+ version)];
     err := [Help (root_help (Part000.cli version))];
     exit_code := 0 |}.

(** Nothing is left for yargs to answer or to object to: no help or version
    asked for, no word and no undeclared option. *)
Definition nothing_left (p : parsed) : bool :=
  negb (asks_for_help p) && negb (versionOptSet p)
  && bool_decide (words p = []) && bool_decide (argv_keys p = []).

(** The invocation runs the default command: the guard does not answer, and
    the dispatcher decides for the handler of [$0]. *)
Definition default_runs (version : string) (args : list string) : Prop :=
  ~ In "--version" args /\
  decide_args (Index.cli version) args =
    Some (Invoke (Index.default_command version) ∅).

(** An outcome has one of the two shapes of the script: one item on stdout
    and exit code 0, or a failure report and exit code 1. *)
Definition well_shaped (o : outcome) : Prop :=
  (exit_code o = 0%Z /\ err o = [] /\ exists c, out o = [c]) \/
  (exit_code o = 1%Z /\ out o = [Line ""] /\
   exists h msg, err o = [Help h; Line msg]).

(** How the outcome [o'] of the variant of part_000 compares with the
    outcome [o] of [src/index.ts], [at_default] telling whether the default
    command runs. *)
Definition compared (version : string) (at_default : Prop) (o o' : outcome) : Prop :=
  exit_code o' = exit_code o /\
  (o' = o <-> displays (root_help (Index.cli version)) o = false /\ ~ at_default) /\
  (out o' = out o <-> out o <> [Help (root_help (Index.cli version))]) /\
  (err o' = [] <-> exit_code o' = 0%Z /\ ~ at_default) /\
  well_shaped o.
(** * Properties *)

(** ** Arrays and tokens *)

Lemma includes_In (l : list string) (x : string) : includes l x = true <-> In x l.
Proof.
  induction l as [|y l IH]; simpl.
  - split; [discriminate | tauto].
  - destruct (String.eqb_spec y x) as [->|Hne].
    + split; auto.
    + rewrite IH. split; [auto | intros [H|H]; [congruence | exact H]].
Qed.

Lemma includes_false_not_In (l : list string) (x : string) :
  includes l x = false <-> ~ In x l.
Proof.
  rewrite <- includes_In. destruct (includes l x); split; congruence.
Qed.

(** The spellings of the flags and of their negations. *)
Lemma help_flag_spellings (a : string) :
  is_flag ["help"; "h"] a = true <-> a = "--help" \/ a = "-h".
Proof.
  unfold is_flag. rewrite includes_In.
  change (map flag_token ["help"; "h"]) with ["--help"; "-h"]. cbn [In].
  intuition congruence.
Qed.

Lemma version_flag_spellings (a : string) :
  is_flag ["version"; "v"] a = true <-> a = "--version" \/ a = "-v".
Proof.
  unfold is_flag. rewrite includes_In.
  change (map flag_token ["version"; "v"]) with ["--version"; "-v"]. cbn [In].
  intuition congruence.
Qed.

Lemma help_negation_spellings (a : string) :
  is_negation ["help"; "h"] a = true <-> a = "--no-help" \/ a = "--no-h".
Proof.
  unfold is_negation. rewrite includes_In.
  change (map negation ["help"; "h"]) with ["--no-help"; "--no-h"]. cbn [In].
  intuition congruence.
Qed.

Lemma version_negation_spellings (a : string) :
  is_negation ["version"; "v"] a = true <-> a = "--no-version" \/ a = "--no-v".
Proof.
  unfold is_negation. rewrite includes_In.
  change (map negation ["version"; "v"]) with ["--no-version"; "--no-v"]. cbn [In].
  intuition congruence.
Qed.

(** A word starts with no dash, so it is none of the option tokens. *)
Lemma word_not_option (a : string) :
  is_word a = true ->
  is_flag ["help"; "h"] a = false /\ is_flag ["version"; "v"] a = false
  /\ is_negation ["help"; "h"] a = false /\ is_negation ["version"; "v"] a = false
  /\ long_option a = None /\ String.eqb a "--" = false.
Proof.
  intros Hw.
  repeat split.
  - destruct (is_flag _ a) eqn:H; [|reflexivity].
    apply help_flag_spellings in H as [-> | ->]; discriminate.
  - destruct (is_flag _ a) eqn:H; [|reflexivity].
    apply version_flag_spellings in H as [-> | ->]; discriminate.
  - destruct (is_negation _ a) eqn:H; [|reflexivity].
    apply help_negation_spellings in H as [-> | ->]; discriminate.
  - destruct (is_negation _ a) eqn:H; [|reflexivity].
    apply version_negation_spellings in H as [-> | ->]; discriminate.
  - destruct a as [|c [|d k]]; try reflexivity.
    unfold is_word in Hw. simpl in Hw. simpl.
    destruct (Ascii.eqb c "-"); [discriminate | reflexivity].
  - destruct (String.eqb_spec a "--") as [->|]; [discriminate | reflexivity].
Qed.

(** A plain word is a word. *)
Lemma plain_word_word (a : string) : plain_word a = true -> is_word a = true.
Proof.
  destruct a as [|c a]; [discriminate|]. unfold plain_word, is_word. simpl.
  intros [Hc _]%andb_prop.
  destruct (Ascii.eqb_spec c "-") as [->|]; [discriminate | reflexivity].
Qed.

Lemma plain_word_not_flag (a : string) :
  plain_word a = true ->
  is_flag ["help"; "h"] a = false /\ is_flag ["version"; "v"] a = false.
Proof.
  intros Hp. destruct (word_not_option a (plain_word_word a Hp)) as (? & ? & _).
  auto.
Qed.

Lemma plain_word_not_default (a : string) :
  plain_word a = true -> String.eqb "$0" a = false.
Proof.
  intros Hp. destruct (String.eqb_spec "$0" a) as [<-|]; [|reflexivity].
  vm_compute in Hp. discriminate.
Qed.

Lemma plain_word_not_boolean (a : string) :
  plain_word a = true -> is_boolean_word a = false.
Proof.
  intros Hp. unfold is_boolean_word.
  destruct (String.eqb_spec a "true") as [->|]; [vm_compute in Hp; discriminate|].
  destruct (String.eqb_spec a "false") as [->|]; [vm_compute in Hp; discriminate|].
  reflexivity.
Qed.

Lemma token_ok_not_boolean (a : string) :
  token_ok a = true -> is_boolean_word a = false.
Proof.
  unfold token_ok. intros H.
  destruct (is_flag ["help"; "h"] a) eqn:Hh.
  { apply help_flag_spellings in Hh as [-> | ->]; reflexivity. }
  destruct (is_flag ["version"; "v"] a) eqn:Hv.
  { apply version_flag_spellings in Hv as [-> | ->]; reflexivity. }
  apply plain_word_not_boolean. exact H.
Qed.

Lemma includes_words (ws : list string) :
  forallb is_word ws = true -> includes ws "--version" = false.
Proof.
  intros H. apply includes_false_not_In. intros Hin.
  rewrite forallb_forall in H. specialize (H _ Hin). discriminate.
Qed.

(** ** Numbers *)

(** What does not look like a number stays the string it is. *)
Lemma maybeCoerceNumber_text (s : string) :
  looksLikeNumber s = false -> maybeCoerceNumber s = EString s.
Proof.
  unfold looksLikeNumber, maybeCoerceNumber.
  destruct (read_hex _); [discriminate|].
  destruct (leading_zero _); [reflexivity|].
  destruct (read_decimal _); [discriminate | reflexivity].
Qed.

(** A word that starts with a letter does not look like a number. *)
Lemma letter_not_number (c : ascii) (s : string) :
  is_letter c = true -> looksLikeNumber (String c s) = false.
Proof.
  intros Hc. unfold looksLikeNumber. cbn [list_ascii_of_string].
  assert (H0 : Ascii.eqb c "0" = false).
  { destruct (Ascii.eqb_spec c "0") as [->|]; [discriminate | reflexivity]. }
  assert (Hm : Ascii.eqb c "-" = false).
  { destruct (Ascii.eqb_spec c "-") as [->|]; [discriminate | reflexivity]. }
  assert (Hd : Ascii.eqb c "." = false).
  { destruct (Ascii.eqb_spec c ".") as [->|]; [discriminate | reflexivity]. }
  assert (Hg : is_digit c = false).
  { unfold is_letter in Hc. unfold is_digit, code.
    destruct (Nat.leb_spec 48 (nat_of_ascii c)), (Nat.leb_spec (nat_of_ascii c) 57),
      (Nat.leb_spec 65 (nat_of_ascii c)), (Nat.leb_spec (nat_of_ascii c) 90),
      (Nat.leb_spec 97 (nat_of_ascii c)), (Nat.leb_spec (nat_of_ascii c) 122);
      simpl in *; try reflexivity; try discriminate; lia. }
  assert (Hh : read_hex (c :: list_ascii_of_string s) = None).
  { unfold read_hex. destruct (list_ascii_of_string s); [reflexivity|].
    rewrite H0. reflexivity. }
  rewrite Hh.
  assert (Hz : leading_zero (c :: list_ascii_of_string s) = false).
  { unfold leading_zero. destruct (list_ascii_of_string s); [reflexivity|].
    rewrite H0. reflexivity. }
  rewrite Hz. unfold read_decimal. rewrite Hm. cbn [span]. rewrite Hg, Hd.
  reflexivity.
Qed.

Lemma plain_word_rendered (a : string) : plain_word a = true -> rendered a = true.
Proof.
  destruct a as [|c a]; [discriminate|]. unfold plain_word.
  intros [Hc _]%andb_prop. unfold rendered.
  rewrite maybeCoerceNumber_text by (apply letter_not_number; exact Hc).
  reflexivity.
Qed.

(** ** A command table of the shape both variants have

    The facts below hold for any default command [d] declared as ["$0"]
    without parameters in front of the five named commands, in strict mode
    and with the two aliased flags. *)

Section Table.

Variables (y : yargs) (d : command).
Hypothesis table_commands :
  commands y = [ d; Index.init_command; Index.add_command; Index.remove_command;
                 Index.upgrade_command; Index.wipe_command ].
Hypothesis table_default : cmd d = "$0".
Hypothesis table_default_builder : builder d = [].
Hypothesis table_strict : strict y = true.
Hypothesis table_help : help_aliases y = ["help"; "h"].
Hypothesis table_version : version_aliases y = ["version"; "v"].


(** *** The plain invocations: flags and plain words *)

Lemma tokens_core (args : list string) :
  forallb token_ok args = true ->
  tokens y args =
  Some {| argv_help := if asks_help args then Some true else None;
          argv_version := if asks_version args then Some true else None;
          argv_keys := [];
          words := words_of args |}.
Proof using table_help table_version.
  induction args as [|a args IH]; [reflexivity|].
  intros [Ha Hargs]%andb_prop. specialize (IH Hargs).
  assert (Hnext : match args with
                  | b :: _ => is_boolean_word b = false
                  | [] => True
                  end).
  { destruct args as [|b args]; [exact I|].
    apply andb_prop in Hargs as [Hb _]. apply token_ok_not_boolean, Hb. }
  cbn [tokens]. rewrite table_help, table_version.
  unfold asks_help, asks_version, words_of in *. cbn [existsb List.filter].
  unfold token_ok in Ha.
  destruct (is_flag ["help"; "h"] a) eqn:Hh.
  { assert (Hv : is_flag ["version"; "v"] a = false).
    { apply help_flag_spellings in Hh as [-> | ->]; reflexivity. }
    assert (Hp : plain_word a = false).
    { apply help_flag_spellings in Hh as [-> | ->]; reflexivity. }
    rewrite Hv, Hp. simpl.
    destruct args as [|b args]; [reflexivity|].
    rewrite Hnext, IH. unfold set_help. simpl.
    destruct (is_flag ["help"; "h"] b || existsb _ args); reflexivity. }
  destruct (is_flag ["version"; "v"] a) eqn:Hv.
  { assert (Hp : plain_word a = false).
    { apply version_flag_spellings in Hv as [-> | ->]; reflexivity. }
    rewrite Hp. simpl.
    destruct args as [|b args]; [reflexivity|].
    rewrite Hnext, IH. unfold set_version. simpl.
    destruct (is_flag ["version"; "v"] b || existsb _ args); reflexivity. }
  simpl in Ha. rewrite Ha.
  destruct (word_not_option a (plain_word_word a Ha)) as (_ & _ & H3 & H4 & H5 & H6).
  pose proof (plain_word_word a Ha) as Hw. unfold is_word in Hw.
  apply negb_true_iff in Hw. rewrite H3, H4, H5, H6, Hw, IH. reflexivity.
Qed.

(** *** Which command a word selects *)

Lemma defaultCommand_table : defaultCommand y = Some d.
Proof using table_commands table_default.
  unfold defaultCommand. rewrite table_commands. simpl.
  unfold is_default, cmd_name. rewrite table_default. reflexivity.
Qed.

Lemma is_default_table : is_default d = true.
Proof using table_default.
  unfold is_default, cmd_name. rewrite table_default. reflexivity.
Qed.

Lemma find_command_table (w : string) :
  find_command y w = if String.eqb "$0" w then Some d else command_of <$> name_of w.
Proof using table_commands table_default.
  unfold find_command. rewrite table_commands. cbn [find].
  unfold cmd_name at 1. rewrite table_default.
  change (fst (parseCommand "$0")) with "$0".
  destruct (String.eqb "$0" w); [reflexivity|].
  change (cmd_name Index.init_command) with "init".
  change (cmd_name Index.add_command) with "add".
  change (cmd_name Index.remove_command) with "remove".
  change (cmd_name Index.upgrade_command) with "upgrade".
  change (cmd_name Index.wipe_command) with "wipe".
  unfold name_of.
  repeat (match goal with
          | |- context [String.eqb ?a w] => destruct (String.eqb a w)
          end; [reflexivity|]).
  reflexivity.
Qed.

(** The parser gives up on a first word [$0] only. *)
Lemma scan_named (args : list string) :
  scan y args = p ← tokens y args; if named_first (words p) then Some p else None.
Proof using table_commands table_default.
  unfold scan. destruct (tokens y args) as [p|]; [|reflexivity]. simpl.
  unfold named_first. destruct (words p) as [|w ws]; [reflexivity|].
  rewrite find_command_table.
  destruct (String.eqb "$0" w); simpl.
  - rewrite is_default_table. reflexivity.
  - destruct (name_of w) as [[]|]; reflexivity.
Qed.

Lemma scan_core (args : list string) :
  forallb token_ok args = true ->
  scan y args =
  Some {| argv_help := if asks_help args then Some true else None;
          argv_version := if asks_version args then Some true else None;
          argv_keys := [];
          words := words_of args |}.
Proof using table_commands table_default table_help table_version.
  intros H. rewrite scan_named, (tokens_core args H). simpl.
  replace (named_first (words_of args)) with true; [reflexivity|].
  unfold named_first, words_of.
  destruct (List.filter plain_word args) as [|w ws] eqn:Hf; [reflexivity|].
  assert (Hw : plain_word w = true).
  { assert (Hin : In w (List.filter plain_word args)) by (rewrite Hf; now left).
    apply filter_In in Hin. tauto. }
  rewrite (plain_word_not_default w Hw). reflexivity.
Qed.

(** *** The parser and its rules *)

Lemma tokens_reads_bounded (n : nat) (args : list string) (p : parsed) :
  length args <= n -> tokens y args = Some p -> reads y args p.
Proof using Type.
  revert args p. induction n as [|n IH]; intros [|a rest] p Hlen; simpl in Hlen;
    try lia; try (intros [= <-]; constructor).
  cbn [tokens].
  destruct (is_flag (help_aliases y) a) eqn:Hh.
  { destruct rest as [|b rest'].
    - intros [= <-]. apply reads_help; [assumption | exact I | constructor].
    - destruct (is_boolean_word b) eqn:Hb.
      + destruct (tokens y rest') as [q|] eqn:Hq; [|discriminate]. intros [= <-].
        apply reads_help_value; try assumption. apply IH; [simpl in Hlen; lia | assumption].
      + destruct (tokens y (b :: rest')) as [q|] eqn:Hq; [|discriminate]. intros [= <-].
        apply reads_help; try assumption. apply IH; [lia | assumption]. }
  destruct (is_flag (version_aliases y) a) eqn:Hv.
  { destruct rest as [|b rest'].
    - intros [= <-]. apply reads_version; try assumption; [exact I | constructor].
    - destruct (is_boolean_word b) eqn:Hb.
      + destruct (tokens y rest') as [q|] eqn:Hq; [|discriminate]. intros [= <-].
        apply reads_version_value; try assumption.
        apply IH; [simpl in Hlen; lia | assumption].
      + destruct (tokens y (b :: rest')) as [q|] eqn:Hq; [|discriminate]. intros [= <-].
        apply reads_version; try assumption. apply IH; [lia | assumption]. }
  destruct (is_negation (help_aliases y) a) eqn:Hnh.
  { destruct (tokens y rest) as [q|] eqn:Hq; [|discriminate]. intros [= <-].
    apply reads_no_help; try assumption. apply IH; [lia | assumption]. }
  destruct (is_negation (version_aliases y) a) eqn:Hnv.
  { destruct (tokens y rest) as [q|] eqn:Hq; [|discriminate]. intros [= <-].
    apply reads_no_version; try assumption. apply IH; [lia | assumption]. }
  destruct (long_option a) as [k|] eqn:Hk.
  { destruct (includes (option_names y) k) eqn:Hd; [discriminate|].
    destruct rest as [|b rest'].
    - intros [= <-]. apply (reads_key y a k); try assumption; [exact I | constructor].
    - destruct (starts_with_dash b) eqn:Hb.
      + destruct (tokens y (b :: rest')) as [q|] eqn:Hq; [|discriminate]. intros [= <-].
        apply (reads_key y a k); try assumption. apply IH; [lia | assumption].
      + destruct (tokens y rest') as [q|] eqn:Hq; [|discriminate]. intros [= <-].
        apply (reads_key_value y a k); try assumption.
        apply IH; [simpl in Hlen; lia | assumption]. }
  destruct (String.eqb_spec a "--") as [->|Hne].
  { destruct rest; [|discriminate]. intros [= <-]. constructor. }
  destruct (starts_with_dash a) eqn:Hd; [discriminate|].
  destruct (tokens y rest) as [q|] eqn:Hq; [|discriminate]. intros [= <-].
  apply reads_word; [unfold is_word; now rewrite Hd|].
  apply IH; [lia | assumption].
Qed.

Lemma tokens_reads (args : list string) (p : parsed) :
  tokens y args = Some p -> reads y args p.
Proof using Type. apply (tokens_reads_bounded (length args)). lia. Qed.

Lemma scan_reads (args : list string) (p : parsed) :
  scan y args = Some p -> reads y args p /\ named_first (words p) = true.
Proof using table_commands table_default.
  rewrite scan_named. destruct (tokens y args) as [q|] eqn:Hq; [|discriminate].
  simpl. destruct (named_first (words q)) eqn:Hn; [|discriminate].
  intros [= <-]. split; [apply tokens_reads; assumption | assumption].
Qed.

(** The words of the parsed arguments are words of the command line, in
    their order; the keys are its undeclared options. *)
Lemma reads_words (args : list string) (p : parsed) :
  reads y args p -> forall w, In w (words p) -> In w args /\ is_word w = true.
Proof using Type.
  induction 1; simpl; intros w Hw; try tauto;
    try (destruct (IHreads w Hw); split; [simpl; tauto | assumption]).
  destruct Hw as [<-|Hw]; [split; [now left | assumption]|].
  destruct (IHreads w Hw). split; [now right | assumption].
Qed.


(** *** The parser reads every followed argument vector *)

Lemma tokens_total_bounded (n : nat) (args : list string) :
  length args <= n -> followed_tokens y args = true ->
  exists p, tokens y args = Some p
            /\ forallb (fun w => negb (String.eqb w "$0") && rendered w) (words p) = true.
Proof using Type.
  revert args. induction n as [|n IH]; intros [|a rest] Hlen; simpl in Hlen;
    try lia; try (intros _; exists nothing; split; reflexivity).
  cbn [followed_tokens]. intros [Ha Hrest]%andb_prop.
  assert (Hdrop : match rest with
                  | _ :: rest' => followed_tokens y rest' = true
                  | [] => True
                  end).
  { destruct rest as [|b rest']; [exact I|].
    cbn [followed_tokens] in Hrest. apply andb_prop in Hrest. tauto. }
  assert (Hset : forall (f : parsed -> parsed) l,
             (forall q, words (f q) = words q) ->
             length l <= n -> followed_tokens y l = true ->
             exists p, f <$> tokens y l = Some p
                       /\ forallb (fun w => negb (String.eqb w "$0") && rendered w)
                                  (words p) = true).
  { intros f l Hf Hl Hfl. destruct (IH l Hl Hfl) as (q & -> & Hq).
    exists (f q). split; [reflexivity | now rewrite Hf]. }
  cbn [tokens]. unfold followed_token in Ha.
  destruct (is_flag (help_aliases y) a) eqn:Hh.
  { destruct rest as [|b rest']; [eexists; split; reflexivity|].
    destruct (is_boolean_word b); apply Hset; try reflexivity; try assumption;
      simpl in *; lia. }
  destruct (is_flag (version_aliases y) a) eqn:Hv.
  { destruct rest as [|b rest']; [eexists; split; reflexivity|].
    destruct (is_boolean_word b); apply Hset; try reflexivity; try assumption;
      simpl in *; lia. }
  destruct (is_negation (help_aliases y) a) eqn:Hnh.
  { apply Hset; try reflexivity; try assumption; lia. }
  destruct (is_negation (version_aliases y) a) eqn:Hnv.
  { apply Hset; try reflexivity; try assumption; lia. }
  simpl in Ha.
  destruct (long_option a) as [k|] eqn:Hk.
  { assert (Hd : includes (option_names y) k = false).
    { destruct (includes (option_names y) k); [|reflexivity]. simpl in Ha.
      apply andb_prop in Ha as [Ha _].
      destruct (String.eqb_spec a "--") as [->|]; discriminate. }
    rewrite Hd.
    destruct rest as [|b rest']; [eexists; split; reflexivity|].
    destruct (starts_with_dash b); apply Hset; try reflexivity; try assumption;
      simpl in *; lia. }
  destruct (String.eqb_spec a "--") as [->|Hne].
  { simpl in Ha. destruct rest; [|discriminate]. eexists; split; reflexivity. }
  rewrite orb_false_r in Ha.
  apply andb_prop in Ha as [[Hw Hz]%andb_prop Hr].
  unfold is_word in Hw. apply negb_true_iff in Hw. rewrite Hw.
  destruct (IH rest ltac:(lia) Hrest) as (q & -> & Hq).
  exists (add_word a q). split; [reflexivity|].
  simpl. now rewrite Hz, Hr, Hq.
Qed.

Lemma followed_scan (args : list string) :
  followed_tokens y args = true ->
  exists p, scan y args = Some p /\ forallb rendered (words p) = true.
Proof using table_commands table_default.
  intros H.
  destruct (tokens_total_bounded (length args) args (le_n _) H) as (p & Hp & Hw).
  exists p. rewrite scan_named, Hp. simpl.
  assert (Hn : named_first (words p) = true).
  { unfold named_first. destruct (words p) as [|w ws]; [reflexivity|].
    simpl in Hw. apply andb_prop in Hw as [[Hz _]%andb_prop _].
    rewrite String.eqb_sym. exact Hz. }
  rewrite Hn. split; [reflexivity|].
  rewrite forallb_forall in *. intros w Hin. specialize (Hw w Hin).
  apply andb_prop in Hw. tauto.
Qed.

(** *** Validation inside a command *)

Lemma filter_no_command_keys (ws : list string) :
  filter (fun w => includes [] w = false) ws = ws.
Proof using Type.
  induction ws as [|w ws IH]; [reflexivity|].
  rewrite filter_cons, IH. simpl. destruct (decide (false = false)); congruence.
Qed.

Lemma report_once (ws acc : list string) :
  (forall w, In w ws -> includes acc w = true) ->
  fold_left (fun acc w => if includes acc w then acc else acc ++ [w]) ws acc = acc.
Proof using Type.
  revert acc. induction ws as [|w ws IH]; intros acc H; simpl; [reflexivity|].
  rewrite (H w (or_introl eq_refl)). apply IH. intros w' Hw'. apply H. now right.
Qed.

(** In the context of a command every undeclared option and every word
    left over is unknown. *)
Lemma unknownArguments_context (keys ws : list string) :
  unknownArguments [] None keys ws =
  match keys ++ ws with
  | [] => None
  | _ :: _ => Some (UnknownArguments (keys ++ ws))
  end.
Proof using Type.
  unfold unknownArguments. rewrite filter_no_command_keys.
  rewrite report_once; [reflexivity|].
  intros w Hw. apply includes_In, in_or_app. now right.
Qed.

Lemma positionals_default : cmd_positionals d = [].
Proof using table_default. unfold cmd_positionals. rewrite table_default. reflexivity. Qed.

Lemma strictly_app (context : option name) (keys : list string) (w : string)
    (ws : list string) :
  strictly context ∅ (keys ++ w :: ws) = Fails context (UnknownArguments (keys ++ w :: ws)).
Proof using Type. destruct keys; reflexivity. Qed.

Lemma run_command_default (p : parsed) :
  helpOptSet p = false -> versionOptSet p = false ->
  run_command y d true p (words p) =
  realise y d (strictly None ∅ (argv_keys p ++ words p)).
Proof using table_default table_default_builder table_strict.
  intros Hh Hv. unfold run_command, populatePositionals.
  rewrite Hh, Hv, positionals_default, table_default_builder, table_strict. simpl.
  rewrite unknownArguments_context. destruct (argv_keys p ++ words p); reflexivity.
Qed.

Lemma run_command_nullary (n : name) (p : parsed) (rest : list string) :
  n = Init \/ n = Wipe ->
  helpOptSet p = false -> versionOptSet p = false ->
  run_command y (command_of n) false p rest =
  realise y d (strictly (Some n) ∅ (argv_keys p ++ rest)).
Proof using table_strict.
  intros Hn Hh Hv. unfold run_command, populatePositionals.
  rewrite Hh, Hv, table_strict.
  destruct Hn as [-> | ->]; simpl;
    rewrite unknownArguments_context; destruct (argv_keys p ++ rest); reflexivity.
Qed.

Lemma run_command_unary_missing (n : name) (p : parsed) :
  n = Add \/ n = Remove ->
  helpOptSet p = false -> versionOptSet p = false ->
  run_command y (command_of n) false p [] =
  realise y d (Fails (Some n) (NotEnoughNonOptionArguments 0 1)).
Proof using Type.
  intros Hn Hh Hv. unfold run_command. rewrite Hh, Hv.
  destruct Hn as [-> | ->]; reflexivity.
Qed.

Lemma run_command_unary (n : name) (p : parsed) (c : string) (rest : list string) :
  n = Add \/ n = Remove ->
  helpOptSet p = false -> versionOptSet p = false ->
  run_command y (command_of n) false p (c :: rest) =
  realise y d (strictly (Some n) {[ "component-name" := VOne (EString c) ]}
                        (argv_keys p ++ rest)).
Proof using table_strict.
  intros Hn Hh Hv. unfold run_command, populatePositionals.
  rewrite Hh, Hv, table_strict.
  destruct Hn as [-> | ->]; simpl.
  all: unfold requiredArguments; simpl.
  all: rewrite filter_cons, decide_False by (rewrite lookup_insert_eq; discriminate).
  all: rewrite filter_nil, unknownArguments_context;
    destruct (argv_keys p ++ rest); reflexivity.
Qed.

Lemma run_command_upgrade (p : parsed) (names : list string) :
  helpOptSet p = false -> versionOptSet p = false ->
  run_command y Index.upgrade_command false p names =
  realise y d (strictly (Some Upgrade)
                        {[ "components" := VArray (map maybeCoerceNumber names) ]}
                        (argv_keys p)).
Proof using table_strict.
  intros Hh Hv. unfold run_command, populatePositionals.
  rewrite Hh, Hv, table_strict.
  change (positionalCount _ _) with (@None failure).
  change (populatePositional _ _ names ∅)
    with ((<["components" := VArray (map maybeCoerceNumber names)]> ∅ : arguments),
          @nil string).
  cbv beta iota.
  change (requiredArguments _ _) with (@None failure). cbv beta iota.
  rewrite unknownArguments_context, app_nil_r.
  destruct (argv_keys p); reflexivity.
Qed.

(** *** The table resolves as the dispatch table says *)

Lemma no_command_table (p : parsed) :
  no_command y p =
  if helpOptSet p then ShowHelp (root_help y) else run_command y d true p (words p).
Proof using table_commands table_default.
  unfold no_command. rewrite defaultCommand_table. reflexivity.
Qed.

Lemma ends_with_help_table (ws : list string) : ends_with_help y ws = help_word ws.
Proof using table_help.
  unfold ends_with_help, help_word, helpCmds. rewrite table_help.
  change (List.filter _ ["help"; "h"]) with ["help"].
  destruct (last ws) as [w|]; [|reflexivity]. cbn [includes].
  destruct (String.eqb_spec "help" w) as [<-|Hne]; [reflexivity|].
  symmetry. apply bool_decide_eq_false_2. congruence.
Qed.

Lemma named_first_removelast (ws : list string) :
  named_first ws = true -> named_first (removelast ws) = true.
Proof using Type. destruct ws as [|w [|w' ws]]; auto. Qed.

Lemma dispatch_help (p : parsed) :
  helpOptSet p = true -> named_first (words p) = true ->
  dispatch y p = ShowHelp (screen y (context (words p))).
Proof using table_commands table_default.
  intros Hh Hn. unfold dispatch, context.
  destruct (words p) as [|w rest] eqn:Hws.
  - rewrite no_command_table, Hh. reflexivity.
  - rewrite find_command_table. unfold named_first in Hn.
    apply negb_true_iff in Hn. rewrite Hn.
    destruct (name_of w) as [n|]; simpl.
    + unfold run_command. rewrite Hh. reflexivity.
    + rewrite no_command_table, Hh. reflexivity.
Qed.

Lemma dispatch_version (p : parsed) :
  helpOptSet p = false -> versionOptSet p = true -> named_first (words p) = true ->
  dispatch y p = ShowVersion.
Proof using table_commands table_default.
  intros Hh Hv Hn. unfold dispatch.
  destruct (words p) as [|w rest] eqn:Hws.
  - rewrite no_command_table, Hh. unfold run_command. rewrite Hh, Hv. reflexivity.
  - rewrite find_command_table. unfold named_first in Hn.
    apply negb_true_iff in Hn. rewrite Hn.
    destruct (name_of w) as [n|]; simpl.
    + unfold run_command. rewrite Hh, Hv. reflexivity.
    + rewrite no_command_table, Hh. unfold run_command. rewrite Hh, Hv. reflexivity.
Qed.

Lemma dispatch_words (p : parsed) :
  helpOptSet p = false -> versionOptSet p = false -> named_first (words p) = true ->
  dispatch y p = realise y d (classify_words (argv_keys p) (words p)).
Proof using All.
  intros Hh Hv Hn. unfold dispatch, classify_words.
  destruct (words p) as [|w rest] eqn:Hws.
  - rewrite no_command_table, Hh, run_command_default, Hws, app_nil_r by assumption.
    reflexivity.
  - rewrite find_command_table. unfold named_first in Hn.
    apply negb_true_iff in Hn. rewrite Hn.
    destruct (name_of w) as [n|] eqn:Hname; simpl.
    + destruct n.
      * apply run_command_nullary; auto.
      * destruct rest; [apply run_command_unary_missing | apply run_command_unary]; auto.
      * destruct rest; [apply run_command_unary_missing | apply run_command_unary]; auto.
      * apply run_command_upgrade; assumption.
      * apply run_command_nullary; auto.
    + rewrite no_command_table, Hh, run_command_default, Hws, strictly_app
        by assumption.
      reflexivity.
Qed.

Lemma resolve_classify (p : parsed) :
  named_first (words p) = true ->
  resolve y p = realise y d (classify p).
Proof using All.
  intros Hn. unfold resolve, implicit_help, classify, asks_for_help.
  rewrite ends_with_help_table.
  destruct (help_word (words p)) eqn:Hw.
  - rewrite orb_true_r. rewrite dispatch_help; [reflexivity | reflexivity |].
    simpl. apply named_first_removelast, Hn.
  - rewrite orb_false_r. destruct (helpOptSet p) eqn:Hh.
    + rewrite dispatch_help by assumption. reflexivity.
    + destruct (versionOptSet p) eqn:Hv.
      * rewrite dispatch_version by assumption. reflexivity.
      * apply dispatch_words; assumption.
Qed.

Lemma scan_resolve (args : list string) (p : parsed) :
  scan y args = Some p -> resolve y p = realise y d (classify p).
Proof using All.
  intros Hp. apply resolve_classify. apply (scan_reads args p Hp).
Qed.

End Table.

(** ** Running a script *)

Lemma includes_process_argv (bin script : string) (args : list string) :
  bin <> "--version" -> script <> "--version" ->
  includes (bin :: script :: args) "--version" = includes args "--version".
Proof.
  intros Hb Hs. simpl.
  destruct (String.eqb_spec bin "--version"); [contradiction|].
  destruct (String.eqb_spec script "--version"); [contradiction|]. reflexivity.
Qed.

(** A script that starts with the version guard: with [--version] among
    the arguments of the process nothing after the guard is executed. *)
Lemma spawnSync_guard (v : string) (k : list string -> proc unit)
    (process_argv : list string) :
  spawnSync (fun pa => Index.version_guard v pa;; k pa) process_argv =
  if includes process_argv "--version"
  then Some {| out := [Line v]; err := []; exit_code := 0 |}
  else Proc.run (k process_argv).
Proof.
  unfold spawnSync, Index.version_guard.
  destruct (includes process_argv "--version"); reflexivity.
Qed.

Lemma runCommand_guard (v : string) (args : list string) :
  runCommand v args =
  if includes args "--version"
  then Some {| out := [Line v]; err := []; exit_code := 0 |}
  else Proc.run (parse (Index.cli v) args).
Proof.
  unfold runCommand.
  change (Index.main v) with
    (fun pa => Index.version_guard v pa;; parse (Index.cli v) (hideBin pa)).
  rewrite spawnSync_guard.
  rewrite includes_process_argv by discriminate. reflexivity.
Qed.

Lemma runCommand_part000_guard (v : string) (args : list string) :
  runCommand_part000 v args =
  if includes args "--version"
  then Some {| out := [Line v]; err := []; exit_code := 0 |}
  else Proc.run (parse (Part000.cli v) args).
Proof.
  unfold runCommand_part000.
  change (Part000.main v) with
    (fun pa => Index.version_guard v pa;; parse (Part000.cli v) (hideBin pa)).
  rewrite spawnSync_guard.
  rewrite includes_process_argv by discriminate. reflexivity.
Qed.

(** The parser reads the argument vector the same way in every table with
    the same options. *)
Lemma tokens_options (y y' : yargs) (args : list string) :
  help_aliases y = help_aliases y' -> version_aliases y = version_aliases y' ->
  option_names y = option_names y' ->
  tokens y args = tokens y' args.
Proof.
  intros Hh Hv Ho.
  enough (H : forall n l, length l <= n -> tokens y l = tokens y' l)
    by (apply (H (length args)); lia).
  clear args. induction n as [|n IH]; intros [|a rest] Hlen; simpl in Hlen;
    try lia; try reflexivity.
  cbn [tokens]. rewrite Hh, Hv, Ho, (IH rest) by lia.
  destruct rest as [|b rest']; [reflexivity|].
  rewrite (IH rest') by (simpl in Hlen; lia). reflexivity.
Qed.

Lemma scan_variants (v : string) (args : list string) :
  scan (Part000.cli v) args = scan (Index.cli v) args.
Proof.
  rewrite (scan_named (Part000.cli v) (Part000.default_command v)) by reflexivity.
  rewrite (scan_named (Index.cli v) (Index.default_command v)) by reflexivity.
  rewrite (tokens_options (Part000.cli v) (Index.cli v)) by reflexivity.
  reflexivity.
Qed.

(** Both variants resolve an argument vector by the dispatch table. *)
Lemma index_resolve (v : string) (args : list string) (p : parsed) :
  scan (Index.cli v) args = Some p ->
  resolve (Index.cli v) p =
  realise (Index.cli v) (Index.default_command v) (classify p).
Proof. apply scan_resolve; reflexivity. Qed.

Lemma part000_resolve (v : string) (args : list string) (p : parsed) :
  scan (Part000.cli v) args = Some p ->
  resolve (Part000.cli v) p =
  realise (Part000.cli v) (Part000.default_command v) (classify p).
Proof. apply scan_resolve; reflexivity. Qed.

Lemma runCommand_classify (v : string) (args : list string) (p : parsed) :
  includes args "--version" = false -> scan (Index.cli v) args = Some p ->
  runCommand v args = observe (Index.cli v) (Index.default_command v) (classify p).
Proof.
  intros Hg Hp. rewrite runCommand_guard, Hg. unfold parse. rewrite Hp.
  rewrite (index_resolve v args p Hp). reflexivity.
Qed.

Lemma runCommand_part000_classify (v : string) (args : list string) (p : parsed) :
  includes args "--version" = false -> scan (Index.cli v) args = Some p ->
  runCommand_part000 v args =
  observe (Part000.cli v) (Part000.default_command v) (classify p).
Proof.
  intros Hg Hp. rewrite runCommand_part000_guard, Hg. unfold parse.
  rewrite scan_variants, Hp.
  rewrite (part000_resolve v args p) by (rewrite scan_variants; exact Hp).
  reflexivity.
Qed.

Lemma decide_args_classify (v : string) (args : list string) (p : parsed) :
  scan (Index.cli v) args = Some p ->
  decide_args (Index.cli v) args =
  Some (realise (Index.cli v) (Index.default_command v) (classify p)).
Proof.
  intros Hp. unfold decide_args. rewrite Hp. simpl.
  rewrite (index_resolve v args p Hp). reflexivity.
Qed.

(** ** What carrying out a verdict shows *)

Lemma observe_fails (y : yargs) (d : command) (context : option name) (f : failure) :
  observe y d (Fails context f) = Some (reported (screen y context) (message f)).
Proof. reflexivity. Qed.

Lemma run_console_log_if (s : option string) :
  Proc.run (console_log_if s) = printed <$> s.
Proof. destruct s; reflexivity. Qed.

(** A named command that completes prints one line and exits with code 0. *)
Lemma handler_named_exit (n : name) (sh : proc unit) (argv : arguments) (o : outcome) :
  Proc.run (handler (command_of n) sh argv) = Some o ->
  exists line, o = printed line.
Proof.
  destruct n; cbn [command_of handler Index.init_command Index.add_command
                   Index.remove_command Index.upgrade_command Index.wipe_command];
    try (intros [= <-]; eexists; reflexivity);
    try (rewrite run_console_log_if;
         destruct (String.append _ <$> _) as [s|]; [|discriminate];
         intros [= <-]; eexists; reflexivity).
  destruct (argv !! "components") as [[x|[|c cs]]|]; try discriminate;
    try (intros [= <-]; eexists; reflexivity).
  rewrite run_console_log_if.
  destruct (String.append _ <$> _) as [s|]; [|discriminate].
  intros [= <-]; eexists; reflexivity.
Qed.

(** The line [upgrade] prints for the names it is given. *)
Lemma observe_upgrade (y : yargs) (d : command) (names : list string) :
  observe y d (Invokes (Some Upgrade)
                       {[ "components" := VArray (map maybeCoerceNumber names) ]}) =
  printed <$> upgrade_line names.
Proof.
  unfold observe, realise, perform.
  cbn [command_of handler Index.upgrade_command].
  rewrite lookup_singleton_eq.
  destruct names as [|n names]; [reflexivity|].
  cbn [map upgrade_line]. rewrite run_console_log_if. reflexivity.
Qed.

Lemma observe_add (y : yargs) (d : command) (c : string) :
  observe y d (Invokes (Some Add) {[ "component-name" := VOne (EString c) ]}) =
  Some (printed ("Adding component: " +:+ c)).
Proof.
  unfold observe, realise, perform. cbn [command_of handler Index.add_command].
  rewrite lookup_singleton_eq. reflexivity.
Qed.

Lemma observe_remove (y : yargs) (d : command) (c : string) :
  observe y d (Invokes (Some Remove) {[ "component-name" := VOne (EString c) ]}) =
  Some (printed ("Removing component: " +:+ c)).
Proof.
  unfold observe, realise, perform. cbn [command_of handler Index.remove_command].
  rewrite lookup_singleton_eq. reflexivity.
Qed.

(** The names that are rendered can be joined. *)
Lemma join_elements_rendered (names : list string) :
  forallb rendered names = true ->
  exists s, join_elements (map maybeCoerceNumber names) ", " = Some s.
Proof.
  intros H. unfold join_elements.
  assert (Hm : exists ss, mapM spelling_of (map maybeCoerceNumber names) = Some ss).
  { induction names as [|n names IH]; [exists []; reflexivity|].
    simpl in H. apply andb_prop in H as [Hn H]. destruct (IH H) as (ss & Hss).
    cbn [map mapM]. rewrite Hss. unfold rendered in Hn.
    destruct (maybeCoerceNumber n); try discriminate; eexists; reflexivity. }
  destruct Hm as (ss & ->). eexists; reflexivity.
Qed.

Lemma upgrade_line_rendered (names : list string) :
  forallb rendered names = true -> exists s, upgrade_line names = Some s.
Proof.
  intros H. destruct names as [|n names]; [eexists; reflexivity|].
  unfold upgrade_line. destruct (join_elements_rendered _ H) as (s & ->).
  eexists; reflexivity.
Qed.

(** ** The dispatch table, outcome by outcome *)

Lemma strictly_cons (context : option name) (argv : arguments) (keys : list string)
    (w : string) (ws : list string) :
  strictly context argv (keys ++ w :: ws) =
  Fails context (UnknownArguments (keys ++ w :: ws)).
Proof. destruct keys; reflexivity. Qed.

Lemma classify_words_shape (keys ws : list string) :
  classify_words keys ws =
  if name_given ws
  then strictly (context ws) (bound_arguments ws) (keys ++ surplus_words ws)
  else Fails (context ws) (NotEnoughNonOptionArguments 0 1).
Proof.
  destruct ws as [|w rest]; [simpl; now rewrite app_nil_r|].
  unfold classify_words, name_given, context, bound_arguments, surplus_words.
  destruct (name_of w) as [[]|]; try reflexivity.
  - destruct rest; reflexivity.
  - destruct rest; reflexivity.
  - now rewrite app_nil_r.
  - now rewrite strictly_cons.
Qed.

(** A named command invoked with the arguments bound for it prints the
    line of the table. *)
Lemma observe_bound (y : yargs) (d : command) (ws : list string) (n : name) :
  context ws = Some n -> name_given ws = true ->
  observe y d (Invokes (Some n) (bound_arguments ws)) = printed <$> table_line ws.
Proof.
  destruct ws as [|w rest]; [discriminate|].
  unfold context, name_given, bound_arguments, table_line.
  destruct (name_of w) as [m|]; [|discriminate]. intros [= ->].
  destruct n; try reflexivity.
  - destruct rest as [|c rest]; [discriminate|]. intros _. apply observe_add.
  - destruct rest as [|c rest]; [discriminate|]. intros _. apply observe_remove.
  - intros _. apply observe_upgrade.
Qed.

Lemma surplus_words_nil (ws : list string) :
  surplus_words ws = [] -> ws = [] \/ exists n, context ws = Some n.
Proof.
  destruct ws as [|w rest]; [auto|]. unfold surplus_words, context.
  destruct (name_of w); [eauto | discriminate].
Qed.

Lemma observe_classify (y : yargs) (d : command) (by_default : outcome) (p : parsed) :
  observe y d (Invokes None ∅) = Some by_default ->
  observe y d (classify p) = expected y by_default p.
Proof.
  intros Hd. unfold classify, expected.
  destruct (asks_for_help p); [reflexivity|].
  destruct (versionOptSet p); [reflexivity|].
  rewrite classify_words_shape.
  destruct (name_given (words p)) eqn:Hg; [|reflexivity].
  unfold offending.
  destruct (argv_keys p ++ surplus_words (words p)) as [|k l] eqn:Ho; [|reflexivity].
  cbn [strictly].
  apply app_eq_nil in Ho as [_ Hs].
  destruct (surplus_words_nil _ Hs) as [Hw | (n & Hn)].
  - rewrite Hw. exact Hd.
  - rewrite Hn, (observe_bound y d (words p) n Hn Hg).
    destruct (words p); [discriminate | reflexivity].
Qed.

Lemma runCommand_expected (v : string) (args : list string) (p : parsed) :
  includes args "--version" = false -> scan (Index.cli v) args = Some p ->
  runCommand v args = expected (Index.cli v) (default_index v) p.
Proof.
  intros Hg Hp. rewrite (runCommand_classify v args p Hg Hp).
  apply observe_classify. reflexivity.
Qed.

Lemma runCommand_part000_expected (v : string) (args : list string) (p : parsed) :
  includes args "--version" = false -> scan (Index.cli v) args = Some p ->
  runCommand_part000 v args = expected (Part000.cli v) (default_part000 v) p.
Proof.
  intros Hg Hp. rewrite (runCommand_part000_classify v args p Hg Hp).
  apply observe_classify. reflexivity.
Qed.

(** The line of the table exists when the words are rendered. *)
Lemma table_line_rendered (ws : list string) (n : name) :
  context ws = Some n -> name_given ws = true -> forallb rendered ws = true ->
  exists line, table_line ws = Some line.
Proof.
  destruct ws as [|w rest]; [discriminate|].
  unfold context, name_given, table_line. cbn [forallb].
  destruct (name_of w) as [m|]; [|discriminate]. intros [= ->] Hg [_ Hr]%andb_prop.
  destruct n; try (eexists; reflexivity).
  - destruct rest; [discriminate | eexists; reflexivity].
  - destruct rest; [discriminate | eexists; reflexivity].
  - apply upgrade_line_rendered, Hr.
Qed.

(** ** Invocations made of words *)

Lemma tokens_of_words (y : yargs) (ws : list string) :
  help_aliases y = ["help"; "h"] -> version_aliases y = ["version"; "v"] ->
  forallb is_word ws = true ->
  tokens y ws = Some {| argv_help := None; argv_version := None;
                        argv_keys := []; words := ws |}.
Proof.
  intros Hh Hv. induction ws as [|w ws IH]; [reflexivity|].
  intros [Hw Hws]%andb_prop. cbn [tokens]. rewrite Hh, Hv, (IH Hws).
  destruct (word_not_option w Hw) as (H1 & H2 & H3 & H4 & H5 & H6).
  rewrite H1, H2, H3, H4, H5, H6.
  unfold is_word in Hw. apply negb_true_iff in Hw. rewrite Hw. reflexivity.
Qed.

Lemma scan_of_words (v : string) (ws : list string) :
  forallb is_word ws = true -> named_first ws = true ->
  scan (Index.cli v) ws = Some {| argv_help := None; argv_version := None;
                                  argv_keys := []; words := ws |}.
Proof.
  intros Hws Hn.
  rewrite (scan_named (Index.cli v) (Index.default_command v)) by reflexivity.
  rewrite (tokens_of_words (Index.cli v) ws eq_refl eq_refl Hws). simpl. now rewrite Hn.
Qed.

Lemma help_word_false (ws : list string) :
  last ws <> Some "help" -> help_word ws = false.
Proof. intros H. apply bool_decide_eq_false_2, H. Qed.

(** The outcome of an invocation made of words, the last of which is not
    [help]. *)
Lemma runCommand_of_words (v : string) (ws : list string) :
  forallb is_word ws = true -> named_first ws = true -> last ws <> Some "help" ->
  runCommand v ws =
  expected (Index.cli v) (default_index v)
           {| argv_help := None; argv_version := None; argv_keys := []; words := ws |}.
Proof.
  intros Hws Hn Hl.
  apply runCommand_expected; [apply includes_words, Hws | apply scan_of_words; assumption].
Qed.



(** ** Handlers play no part before the decision *)

Lemma find_rewire (h : handler_fn) (f : command -> bool) (l : list command) :
  (forall c, f (rewire_command h c) = f c) ->
  find f (map (rewire_command h) l) = rewire_command h <$> find f l.
Proof.
  intros Hf. induction l as [|c l IH]; simpl; [reflexivity|].
  rewrite Hf. destruct (f c); [reflexivity | exact IH].
Qed.

Lemma root_help_rewire (h : handler_fn) (y : yargs) :
  root_help (rewire h y) = root_help y.
Proof.
  unfold root_help. simpl. rewrite map_map. reflexivity.
Qed.

Lemma option_names_rewire (h : handler_fn) (y : yargs) :
  option_names (rewire h y) = option_names y.
Proof.
  unfold option_names. simpl. do 2 f_equal.
  induction (commands y) as [|c l IH]; [reflexivity|]. simpl. now rewrite IH.
Qed.

Lemma scan_rewire (h : handler_fn) (y : yargs) (args : list string) :
  scan (rewire h y) args = scan y args.
Proof.
  unfold scan.
  rewrite (tokens_options (rewire h y) y)
    by first [reflexivity | apply option_names_rewire].
  destruct (tokens y args) as [p|]; [|reflexivity]. simpl.
  destruct (words p) as [|w ws]; [reflexivity|].
  unfold find_command. simpl commands. rewrite find_rewire by reflexivity.
  destruct (find _ (commands y)) as [c|]; reflexivity.
Qed.

Lemma run_command_rewire (h : handler_fn) (y : yargs) (c : command)
    (dflt : bool) (p : parsed) (rest : list string) :
  run_command (rewire h y) (rewire_command h c) dflt p rest =
  rewire_decision h (run_command y c dflt p rest).
Proof.
  unfold run_command. rewrite root_help_rewire.
  change (command_help (rewire h y) (rewire_command h c)) with (command_help y c).
  change (cmd_positionals (rewire_command h c)) with (cmd_positionals c).
  change (populatePositionals (rewire_command h c) rest)
    with (populatePositionals c rest).
  change (builder (rewire_command h c)) with (builder c).
  change (strict (rewire h y)) with (strict y).
  destruct (helpOptSet p); [reflexivity|].
  destruct (versionOptSet p); [reflexivity|].
  destruct (positionalCount _ _); [reflexivity|].
  destruct (populatePositionals c rest) as [argv surplus].
  destruct (requiredArguments _ _); [reflexivity|].
  destruct (if strict y then _ else _); reflexivity.
Qed.

Lemma no_command_rewire (h : handler_fn) (y : yargs) (p : parsed) :
  no_command (rewire h y) p = rewire_decision h (no_command y p).
Proof.
  unfold no_command, defaultCommand. simpl commands.
  rewrite find_rewire by reflexivity. rewrite root_help_rewire.
  destruct (find is_default (commands y)) as [c|]; simpl.
  - destruct (helpOptSet p); [reflexivity|]. apply run_command_rewire.
  - rewrite map_map.
    change (map (fun c => cmd_name (rewire_command h c)) (commands y))
      with (map cmd_name (commands y)).
    destruct (helpOptSet p); [reflexivity|].
    destruct (versionOptSet p); [reflexivity|].
    destruct (nonOptionCount _ _); [reflexivity|].
    destruct (if strict y then _ else _); reflexivity.
Qed.

Lemma dispatch_rewire (h : handler_fn) (y : yargs) (p : parsed) :
  dispatch (rewire h y) p = rewire_decision h (dispatch y p).
Proof.
  unfold dispatch. destruct (words p) as [|w rest]; [apply no_command_rewire|].
  unfold find_command. simpl commands. rewrite find_rewire by reflexivity.
  destruct (find _ (commands y)) as [c|]; simpl.
  - apply run_command_rewire.
  - apply no_command_rewire.
Qed.

Lemma resolve_rewire (h : handler_fn) (y : yargs) (p : parsed) :
  resolve (rewire h y) p = rewire_decision h (resolve y p).
Proof.
  unfold resolve.
  change (implicit_help (rewire h y) p) with (implicit_help y p).
  apply dispatch_rewire.
Qed.

(** A failure is reported the same way whatever the handlers are. *)
Lemma parse_rewire_fail (h : handler_fn) (y : yargs) (args : list string)
    (p : parsed) (s : help_screen) (f : failure) :
  scan y args = Some p -> resolve y p = Fail s f ->
  parse (rewire h y) args = perform y (Fail s f).
Proof.
  intros Hp Hr. unfold parse.
  rewrite scan_rewire, Hp, resolve_rewire, Hr. reflexivity.
Qed.

(** ** The tests of [src/index.test.ts]

    Each test of the repository, replayed on the model for the version
    string ["0.1.0"]; [expect(stdout.trim()).toBe(l)] reads as stdout being
    the one line [l]. *)

Example test_version_long :
  runCommand PKG_VERSION ["--version"] = Some (printed PKG_VERSION).
Proof. reflexivity. Qed.

Example test_version_short :
  runCommand PKG_VERSION ["-v"] = Some (printed PKG_VERSION).
Proof. reflexivity. Qed.

Example test_help :
  forall flag, flag = "--help" \/ flag = "-h" ->
  exists h,
    runCommand PKG_VERSION [flag] =
      Some {| out := [Help h]; err := []; exit_code := 0 |} /\
    hs_usage h = "Usage: refrescante <command> [options]" /\
    map fst (hs_commands h) =
      ["$0"; "init"; "add <component-name>"; "remove <component-name>";
       "upgrade [components...]"; "wipe"].
Proof.
  intros flag [-> | ->]; eexists; repeat split; reflexivity.
Qed.

Example test_init :
  runCommand PKG_VERSION ["init"] =
    Some (printed "Initializing RefrescanteUI project...").
Proof. reflexivity. Qed.

Example test_requires_component_name :
  forall c, c = "add" \/ c = "remove" ->
  exists o,
    runCommand PKG_VERSION [c] = Some o /\ exit_code o = 1%Z /\
    In (Line "Not enough non-option arguments: got 0, need at least 1") (err o).
Proof.
  intros c [-> | ->]; eexists; (split; [reflexivity|]); simpl; tauto.
Qed.

Example test_add_button :
  runCommand PKG_VERSION ["add"; "button"] = Some (printed "Adding component: button").
Proof. reflexivity. Qed.

Example test_remove_button :
  runCommand PKG_VERSION ["remove"; "button"] =
    Some (printed "Removing component: button").
Proof. reflexivity. Qed.

Example test_upgrade_all :
  runCommand PKG_VERSION ["upgrade"] =
    Some (printed "Upgrading Refrescante package and all components...").
Proof. reflexivity. Qed.

Example test_upgrade_some :
  runCommand PKG_VERSION ["upgrade"; "button"; "input"] =
    Some (printed "Upgrading components: button, input").
Proof. reflexivity. Qed.

Example test_wipe :
  runCommand PKG_VERSION ["wipe"] =
    Some (printed "Wiping Refrescante package from the project...").
Proof. reflexivity. Qed.

Example test_invalid_command :
  exists o,
    runCommand PKG_VERSION ["invalid-command"] = Some o /\ exit_code o = 1%Z /\
    In (Line "Unknown argument: invalid-command") (err o).
Proof. eexists. split; [reflexivity|]. simpl. tauto. Qed.

Example test_no_command :
  runCommand PKG_VERSION [] =
    Some (printed ("Refrescante version: " +:+ PKG_VERSION)).
Proof. reflexivity. Qed.

(** * The claims *)

(** C1, as stated, fails in its last part: under bun the failure report of
    yargs leaves an empty line on stdout, so a stdout line is produced,
    though none of a handler. *)
Lemma missing_name_leaves_a_line_on_stdout :
  out <$> runCommand "0.1.0" ["add"] = Some [Line ""] /\
  out <$> runCommand "0.1.0" ["remove"] = Some [Line ""].
Proof. split; reflexivity. Qed.

(** C1, amended.  [add] and [remove] without a component name: the process
    exits with code 1 and stderr carries the help of the command followed
    by the line "Not enough non-option arguments: got 0, need at least 1".
    The handler is never invoked: the decision is a failure, the outcome is
    the same whatever the handlers of the table are, and stdout holds the
    empty line of the failure report and nothing else. *)
Theorem add_remove_need_a_name (v : string) :
  let missing := "Not enough non-option arguments: got 0, need at least 1" in
  let failed c :=
    Some {| out := [Line ""];
            err := [Help (command_help (Index.cli v) c); Line missing];
            exit_code := 1 |} in
  (runCommand v ["add"] = failed Index.add_command /\
   decide_args (Index.cli v) ["add"] =
     Some (Fail (command_help (Index.cli v) Index.add_command)
                (NotEnoughNonOptionArguments 0 1)) /\
   forall h, Proc.run (parse (rewire h (Index.cli v)) ["add"]) = failed Index.add_command)
  /\
  (runCommand v ["remove"] = failed Index.remove_command /\
   decide_args (Index.cli v) ["remove"] =
     Some (Fail (command_help (Index.cli v) Index.remove_command)
                (NotEnoughNonOptionArguments 0 1)) /\
   forall h, Proc.run (parse (rewire h (Index.cli v)) ["remove"]) = failed Index.remove_command).
Proof.
  repeat split; reflexivity.
Qed.







(** C3. With an empty argument vector the default command runs: the process
    prints "Refrescante version: " followed by the version and exits with
    code 0, although the table demands a command; the demand is a setting
    of the top level that the default command, declared as ["$0"], takes
    the place of. *)
Theorem no_command_prints_the_version (v : string) :
  runCommand v [] =
    Some {| out := [Line ("Refrescante version: " +:+ v)];
            err := [];
            exit_code := 0 |}
  /\ demandCommand (Index.cli v) = Some (1, "You need to specify a command")
  /\ decide_args (Index.cli v) [] = Some (Invoke (Index.default_command v) ∅).
Proof.
  repeat split; reflexivity.
Qed.

(** What [demandCommand] would do to the empty invocation if the table had
    no default command. *)
Remark demandCommand_without_default (v : string) :
  let y := Index.cli v in
  let bare :=
    {| scriptName := scriptName y; usage := usage y;
       help_aliases := help_aliases y; version := version y;
       version_aliases := version_aliases y;
       commands := tail (commands y);
       strict := strict y; demandCommand := demandCommand y |} in
  Proc.run (parse bare []) =
    Some (reported (root_help bare) "You need to specify a command").
Proof. reflexivity. Qed.







(** A token that matches no declared command or flag names no command. *)
Lemma undeclared_names_nothing (v : string) (t : string) :
  declared (Index.cli v) t = false -> name_of t = None /\ named_first [t] = true.
Proof.
  unfold declared.
  change (map cmd_name (commands (Index.cli v)))
    with ["$0"; "init"; "add"; "remove"; "upgrade"; "wipe"].
  intros [[H _]%orb_false_elim _]%orb_false_elim. revert H.
  cbn [includes]. unfold name_of, named_first.
  repeat (match goal with
          | |- context [String.eqb ?a t] => destruct (String.eqb a t)
          end; try discriminate).
  split; reflexivity.
Qed.

(** A single word that matches no declared command or flag is reported by
    name, after the help of the script; so [invalid-command] is. *)
Corollary single_unknown_word (v : string) (t : string) :
  is_word t = true -> t <> "help" ->
  declared (Index.cli v) t = false ->
  runCommand v [t] =
    Some (reported (root_help (Index.cli v)) ("Unknown argument: " +:+ quoted t)).
Proof.
  intros Hw Hh Hd. destruct (undeclared_names_nothing v t Hd) as [Hn Hf].
  rewrite runCommand_of_words;
    [| simpl; now rewrite Hw | exact Hf | simpl; congruence].
  unfold expected, asks_for_help, helpOptSet, versionOptSet, offending, name_given,
    surplus_words, context.
  cbn [argv_help argv_version argv_keys words default orb app].
  rewrite help_word_false by (simpl; congruence). rewrite Hn. reflexivity.
Qed.




(** C10. With the literal token [--version] anywhere among the arguments
    the process prints the version string alone and exits with code 0 in
    the guard, before yargs is set up: whatever follows the guard in the
    script is not executed, so no handler runs and the other tokens are
    ignored.  [-v] does not trigger the guard; it is the parser that
    answers it. *)
Theorem version_guard_short_circuits (v : string) (args : list string) :
  In "--version" args ->
  (forall rest_of_script : list string -> proc unit,
     spawnSync (fun pa => Index.version_guard v pa;; rest_of_script pa)
               (execPath :: CLI_PATH :: args) =
       Some {| out := [Line v]; err := []; exit_code := 0 |}) /\
  runCommand v args = Some {| out := [Line v]; err := []; exit_code := 0 |} /\
  (Index.version_guard v (execPath :: CLI_PATH :: ["-v"]) = mret tt /\
   decide_args (Index.cli v) ["-v"] = Some ShowVersion).
Proof.
  intros Hin%includes_In. split; [|split].
  - intros k. rewrite spawnSync_guard.
    rewrite includes_process_argv by discriminate. rewrite Hin. reflexivity.
  - rewrite runCommand_guard, Hin. reflexivity.
  - split; reflexivity.
Qed.

Lemma version_guard_short_circuits_witness :
  In "--version" ["add"; "button"; "--version"] /\
  runCommand "0.1.0" ["add"; "button"; "--version"] =
    Some {| out := [Line "0.1.0"]; err := []; exit_code := 0 |}.
Proof.
  split; [simpl; tauto|].
  apply (version_guard_short_circuits "0.1.0" ["add"; "button"; "--version"]).
  simpl; tauto.
Defined.

(** ** The two variants *)

Lemma help_screen_eqb_refl (h : help_screen) : help_screen_eqb h h = true.
Proof.
  unfold help_screen_eqb. rewrite !bool_decide_eq_true_2; reflexivity.
Qed.

Lemma displays_out (h : help_screen) (rest e : list chunk) (c : Z) :
  displays h {| out := Help h :: rest; err := e; exit_code := c |} = true.
Proof.
  unfold displays. cbn [out err app existsb is_help].
  rewrite help_screen_eqb_refl. reflexivity.
Qed.

Lemma displays_reported (h : help_screen) (msg : string) :
  displays h (reported h msg) = true.
Proof.
  unfold displays, reported. cbn [out err app existsb is_help].
  rewrite help_screen_eqb_refl. reflexivity.
Qed.

Lemma root_helps_differ (v : string) :
  root_help (Part000.cli v) <> root_help (Index.cli v).
Proof. intros H. apply (f_equal hs_commands) in H. discriminate H. Qed.

Lemma command_help_not_root (v : string) (n : name) :
  screen (Index.cli v) (Some n) <> root_help (Index.cli v).
Proof. intros H. apply (f_equal hs_about) in H. discriminate H. Qed.

Lemma command_help_not_displayed (v : string) (n : name) :
  help_screen_eqb (root_help (Index.cli v)) (screen (Index.cli v) (Some n)) = false.
Proof. destruct n; reflexivity. Qed.

(** Where both variants do the same and no help of the script is shown. *)
Lemma compared_same (v : string) (at_default : Prop) (o : outcome) :
  ~ at_default ->
  displays (root_help (Index.cli v)) o = false ->
  out o <> [Help (root_help (Index.cli v))] ->
  (err o = [] <-> exit_code o = 0%Z) ->
  well_shaped o ->
  compared v at_default o o.
Proof.
  intros Hd Hs Ho He Hw. unfold compared. repeat split; try tauto.
Qed.

Lemma compared_help (v : string) (at_default : Prop) (n : name) :
  ~ at_default ->
  let o := {| out := [Help (screen (Index.cli v) (Some n))]; err := [];
              exit_code := 0 |} in
  compared v at_default o o.
Proof.
  intros Hd o. apply compared_same; try assumption.
  - unfold displays, o. cbn [out err app existsb is_help].
    rewrite command_help_not_displayed. reflexivity.
  - intros H. unfold o in H. cbn [out] in H.
    assert (H' : screen (Index.cli v) (Some n) = root_help (Index.cli v))
      by congruence.
    exact (command_help_not_root v n H').
  - tauto.
  - left. simpl. eauto.
Qed.

Lemma compared_printed (v : string) (at_default : Prop) (line : string) :
  ~ at_default -> compared v at_default (printed line) (printed line).
Proof.
  intros Hd. apply compared_same; try assumption; try reflexivity.
  - discriminate.
  - tauto.
  - left. simpl. eauto.
Qed.

Lemma compared_reported (v : string) (at_default : Prop) (n : name) (msg : string) :
  ~ at_default ->
  let o := reported (screen (Index.cli v) (Some n)) msg in
  compared v at_default o o.
Proof.
  intros Hd o. apply compared_same; try assumption.
  - unfold displays, o, reported. cbn [out err app existsb is_help].
    rewrite command_help_not_displayed. reflexivity.
  - discriminate.
  - split; discriminate.
  - right. simpl. eauto.
Qed.

(** Where the help of the script is shown, the variants differ. *)
Lemma compared_root_help (v : string) (at_default : Prop) :
  ~ at_default ->
  compared v at_default
    {| out := [Help (root_help (Index.cli v))]; err := []; exit_code := 0 |}
    {| out := [Help (root_help (Part000.cli v))]; err := []; exit_code := 0 |}.
Proof.
  intros Hd. unfold compared. cbn [out err exit_code].
  split; [reflexivity|]. split; [|split; [|split]].
  - rewrite displays_out. split; [|intros [[=] _]].
    intros H. exfalso. apply (root_helps_differ v). congruence.
  - split; [|intros H; destruct H; reflexivity].
    intros H. exfalso. apply (root_helps_differ v). congruence.
  - tauto.
  - left. simpl. eauto.
Qed.

Lemma compared_root_failure (v : string) (at_default : Prop) (msg : string) :
  ~ at_default ->
  compared v at_default (reported (root_help (Index.cli v)) msg)
                        (reported (root_help (Part000.cli v)) msg).
Proof.
  intros Hd. unfold compared, reported. cbn [out err exit_code].
  split; [reflexivity|]. split; [|split; [|split]].
  - pose proof (displays_reported (root_help (Index.cli v)) msg) as Hdisp.
    unfold reported in Hdisp. rewrite Hdisp. split; [|intros [[=] _]].
    intros H. exfalso. apply (root_helps_differ v). congruence.
  - split; [discriminate | reflexivity].
  - split; [discriminate | intros [[=] _]].
  - right. simpl. eauto.
Qed.

(** Where the default command runs, the variant of part_000 adds the help
    of the script on stderr. *)
Lemma compared_default (v : string) (at_default : Prop) :
  at_default -> compared v at_default (default_index v) (default_part000 v).
Proof.
  intros Hd. unfold compared, default_index, default_part000, printed.
  cbn [out err exit_code].
  split; [reflexivity|]. split; [|split; [|split]].
  - split; [discriminate | tauto].
  - split; [discriminate | reflexivity].
  - split; [discriminate | tauto].
  - left. simpl. eauto.
Qed.

Lemma nothing_left_spec (p : parsed) :
  nothing_left p = true <->
  asks_for_help p = false /\ versionOptSet p = false /\ words p = []
  /\ argv_keys p = [].
Proof.
  unfold nothing_left. rewrite !andb_true_iff, !negb_true_iff, !bool_decide_eq_true.
  tauto.
Qed.

(** What the two variants do with the same parsed arguments. *)
Lemma expected_compared (v : string) (p : parsed) :
  forallb rendered (words p) = true ->
  exists o o',
    expected (Index.cli v) (default_index v) p = Some o /\
    expected (Part000.cli v) (default_part000 v) p = Some o' /\
    compared v (nothing_left p = true) o o'.
Proof.
  intros Hr. unfold expected.
  assert (Hnl : forall P, (nothing_left p = true -> P) ->
                          ~ P -> ~ nothing_left p = true) by tauto.
  destruct (asks_for_help p) eqn:Hh.
  { assert (Hd : ~ nothing_left p = true).
    { rewrite nothing_left_spec. intros (H & _). congruence. }
    destruct (context _) as [n|].
    - do 2 eexists. split; [reflexivity|]. split; [reflexivity|].
      apply compared_help, Hd.
    - do 2 eexists. split; [reflexivity|]. split; [reflexivity|].
      apply compared_root_help, Hd. }
  destruct (versionOptSet p) eqn:Hv.
  { assert (Hd : ~ nothing_left p = true).
    { rewrite nothing_left_spec. intros (_ & H & _). congruence. }
    do 2 eexists. split; [reflexivity|]. split; [reflexivity|].
    apply compared_printed, Hd. }
  destruct (name_given (words p)) eqn:Hg.
  2:{ assert (Hc : exists n, context (words p) = Some n).
      { unfold name_given, context in *. destruct (words p) as [|w rest]; [discriminate|].
        destruct (name_of w); [eauto | discriminate]. }
      destruct Hc as (n & Hn). rewrite Hn.
      assert (Hd : ~ nothing_left p = true).
      { rewrite nothing_left_spec. intros (_ & _ & H & _). rewrite H in Hg.
        discriminate. }
      do 2 eexists. split; [reflexivity|]. split; [reflexivity|].
      apply compared_reported, Hd. }
  destruct (offending p) as [|k l] eqn:Ho.
  - unfold offending in Ho. apply app_eq_nil in Ho as [Hk Hs].
    destruct (surplus_words_nil _ Hs) as [Hw | (n & Hn)].
    + rewrite Hw. do 2 eexists. split; [reflexivity|]. split; [reflexivity|].
      apply compared_default, nothing_left_spec. auto.
    + destruct (table_line_rendered (words p) n Hn Hg Hr) as (line & Hline).
      assert (Hd : ~ nothing_left p = true).
      { rewrite nothing_left_spec. intros (_ & _ & H & _). rewrite H in Hn.
        discriminate. }
      destruct (words p) as [|w rest]; [discriminate|]. rewrite Hline.
      do 2 eexists. split; [reflexivity|]. split; [reflexivity|].
      apply compared_printed, Hd.
  - assert (Hd : ~ nothing_left p = true).
    { rewrite nothing_left_spec. intros (_ & _ & Hw & Hk). unfold offending in Ho.
      rewrite Hw, Hk in Ho. discriminate. }
    destruct (context (words p)) as [n|].
    + do 2 eexists. split; [reflexivity|]. split; [reflexivity|].
      apply compared_reported, Hd.
    + do 2 eexists. split; [reflexivity|]. split; [reflexivity|].
      apply compared_root_failure, Hd.
Qed.

(** ** When the default command runs *)

Lemma command_of_not_default (v : string) (n : name) :
  command_of n <> Index.default_command v.
Proof. intros H. apply (f_equal cmd) in H. destruct n; discriminate H. Qed.

Lemma classify_default (p : parsed) (argv : arguments) :
  classify p = Invokes None argv <-> nothing_left p = true /\ argv = ∅.
Proof.
  rewrite nothing_left_spec. unfold classify.
  destruct (asks_for_help p).
  { split; [discriminate | intros [(H & _) _]; discriminate]. }
  destruct (versionOptSet p).
  { split; [discriminate | intros [(_ & H & _) _]; discriminate]. }
  rewrite classify_words_shape.
  destruct (name_given (words p)) eqn:Hg.
  - destruct (argv_keys p ++ surplus_words (words p)) as [|k l] eqn:Ho; cbn [strictly].
    + apply app_eq_nil in Ho as [Hk Hs].
      destruct (surplus_words_nil _ Hs) as [Hw | (n & Hn)].
      * rewrite Hw. simpl. split; [intros [= <-]; auto | intros [_ ->]; reflexivity].
      * rewrite Hn. split; [discriminate|]. intros [(_ & _ & Hw & _) _].
        rewrite Hw in Hn. discriminate.
    + split; [discriminate|]. intros [(_ & _ & Hw & Hk) _].
      rewrite Hw, Hk in Ho. discriminate.
  - split; [discriminate|]. intros [(_ & _ & Hw & _) _]. rewrite Hw in Hg.
    discriminate.
Qed.

Lemma default_runs_iff (v : string) (args : list string) (p : parsed) :
  ~ In "--version" args -> scan (Index.cli v) args = Some p ->
  (default_runs v args <-> nothing_left p = true).
Proof.
  intros Hno Hp. unfold default_runs. rewrite (decide_args_classify v args p Hp).
  split.
  - intros [_ [= H]].
    destruct (classify p) as [c| |c f|[n|] argv] eqn:Hc; try discriminate.
    + injection H as H _. destruct (command_of_not_default v n H).
    + apply classify_default in Hc. tauto.
  - intros H. split; [exact Hno|].
    assert (Hc : classify p = Invokes None ∅) by (apply classify_default; auto).
    rewrite Hc. reflexivity.
Qed.

(** ** The followed argument vectors *)

Lemma followed_parsed (v : string) (args : list string) :
  followed v args = true -> ~ In "--version" args ->
  exists p, scan (Index.cli v) args = Some p /\ forallb rendered (words p) = true.
Proof.
  unfold followed. intros Hf Hno%includes_false_not_In. rewrite Hno in Hf.
  apply (followed_scan (Index.cli v) (Index.default_command v) eq_refl eq_refl).
  exact Hf.
Qed.

(** On a followed argument vector both variants run to their end, and their
    outcomes compare as follows. *)
Lemma followed_compared (v : string) (args : list string) :
  followed v args = true ->
  exists o o',
    runCommand v args = Some o /\ runCommand_part000 v args = Some o' /\
    compared v (default_runs v args) o o'.
Proof.
  intros Hf. destruct (in_dec string_dec "--version" args) as [Hin | Hno].
  - exists (printed v), (printed v).
    rewrite runCommand_guard, runCommand_part000_guard.
    apply includes_In in Hin as Hi. rewrite Hi.
    split; [reflexivity|]. split; [reflexivity|].
    apply compared_printed. intros [H _]. contradiction.
  - destruct (followed_parsed v args Hf Hno) as (p & Hp & Hr).
    destruct (expected_compared v p Hr) as (o & o' & Ho & Ho' & Hc).
    exists o, o'. apply includes_false_not_In in Hno as Hi.
    rewrite (runCommand_expected v args p Hi Hp),
            (runCommand_part000_expected v args p Hi Hp).
    split; [exact Ho|]. split; [exact Ho'|].
    pose proof (default_runs_iff v args p Hno Hp) as Hd.
    unfold compared in *. tauto.
Qed.




(** Where the default command runs, the variant of part_000 also shows the
    help of the script, on stderr: on the empty argument vector and on
    every other one that leaves nothing to answer. *)
Remark part000_default_shows_help (v : string) :
  forall args, In args [[]; ["--"]; ["--no-help"]; ["-h"; "false"]] ->
  runCommand v args = Some (default_index v) /\
  runCommand_part000 v args = Some (default_part000 v) /\
  default_runs v args.
Proof.
  intros args [<-|[<-|[<-|[<-|[]]]]]; (split; [reflexivity|]);
    (split; [reflexivity|]); (split; [|reflexivity]);
    intros H; apply includes_In in H; discriminate H.
Qed.

(** Where the help of the script is shown, the screens differ: so on the
    word [help] and on an unknown word. *)
Remark variants_differ_on_the_root_help (v : string) :
  runCommand v ["help"] =
    Some {| out := [Help (root_help (Index.cli v))]; err := []; exit_code := 0 |} /\
  runCommand_part000 v ["help"] =
    Some {| out := [Help (root_help (Part000.cli v))]; err := []; exit_code := 0 |} /\
  runCommand v ["invalid-command"] =
    Some (reported (root_help (Index.cli v)) "Unknown argument: invalid-command") /\
  runCommand_part000 v ["invalid-command"] =
    Some (reported (root_help (Part000.cli v)) "Unknown argument: invalid-command").
Proof. repeat split; reflexivity. Qed.

(** * Further properties of the dispatch *)

(** ** What the parser reads *)

Lemma asks_help_In (args : list string) :
  asks_help args = true <-> In "--help" args \/ In "-h" args.
Proof.
  unfold asks_help. rewrite existsb_exists. split.
  - intros (a & Ha & [-> | ->]%help_flag_spellings); auto.
  - intros [H | H]; eexists; (split; [exact H | reflexivity]).
Qed.

Lemma asks_version_In (args : list string) :
  asks_version args = true <-> In "--version" args \/ In "-v" args.
Proof.
  unfold asks_version. rewrite existsb_exists. split.
  - intros (a & Ha & [-> | ->]%version_flag_spellings); auto.
  - intros [H | H]; eexists; (split; [exact H | reflexivity]).
Qed.

Lemma last_plain_words (ws : list string) :
  forallb plain_word ws = true -> last ws <> Some "help".
Proof.
  intros Hws Hl. apply last_Some in Hl as (l' & ->).
  rewrite forallb_app in Hws. apply andb_prop in Hws as [_ Hw]. discriminate.
Qed.

Lemma words_of_plain (args : list string) : forallb plain_word (words_of args) = true.
Proof.
  apply forallb_forall. intros w Hw. apply filter_In in Hw. tauto.
Qed.

(** With no [--version] among flags and plain words, [src/index.ts] does
    what the dispatch table says for the flags and words read. *)
Lemma runCommand_reads (v : string) (args : list string) :
  ~ In "--version" args ->
  forallb token_ok args = true ->
  runCommand v args =
  expected (Index.cli v) (default_index v)
           {| argv_help := if asks_help args then Some true else None;
              argv_version := if asks_version args then Some true else None;
              argv_keys := [];
              words := words_of args |}.
Proof.
  intros Hno%includes_false_not_In Hargs.
  apply (runCommand_expected v args _ Hno).
  apply (scan_core (Index.cli v) (Index.default_command v)); try reflexivity.
  exact Hargs.
Qed.

(** ** Streams and exit codes *)

(** X1. On every followed argument vector [src/index.ts] runs to its end
    in one of two shapes: it exits with code 0, leaves stderr empty and
    writes exactly one item (a line or a help screen) to stdout; or it
    exits with code 1, writes the help screen and one message to stderr,
    and leaves on stdout nothing but the empty line of the failure
    report. *)
Theorem outcomes_have_two_shapes (v : string) (args : list string) :
  followed v args = true ->
  exists o,
    runCommand v args = Some o /\
    ((exit_code o = 0%Z /\ err o = [] /\ exists c, out o = [c]) \/
     (exit_code o = 1%Z /\ out o = [Line ""] /\
      exists h msg, err o = [Help h; Line msg])).
Proof.
  intros Hf. destruct (followed_compared v args Hf) as (o & o' & Ho & _ & Hc).
  exists o. split; [exact Ho|]. apply Hc.
Qed.

Lemma outcomes_have_two_shapes_witness :
  followed "0.1.0" ["init"; "--foo"] = true /\
  exists o,
    runCommand "0.1.0" ["init"; "--foo"] = Some o /\
    ((exit_code o = 0%Z /\ err o = [] /\ exists c, out o = [c]) \/
     (exit_code o = 1%Z /\ out o = [Line ""] /\
      exists h msg, err o = [Help h; Line msg])).
Proof.
  split; [reflexivity|].
  apply (outcomes_have_two_shapes "0.1.0" ["init"; "--foo"]). reflexivity.
Defined.

(** X2. Among the invocations made of plain words, exactly those of a
    declared shape succeed: no word at all, [init] or [wipe] alone, [add]
    or [remove] with one name, [upgrade] with any number of names.  Every
    other one exits with a code other than 0. *)
Theorem success_iff_valid_form (v : string) (ws : list string) :
  forallb plain_word ws = true ->
  exists o, runCommand v ws = Some o /\ (exit_code o = 0%Z <-> valid_form ws = true).
Proof.
  intros Hws.
  assert (Hw : forallb is_word ws = true).
  { rewrite forallb_forall in *. intros w Hin. apply plain_word_word, Hws, Hin. }
  assert (Hn : named_first ws = true).
  { destruct ws as [|w rest]; [reflexivity|]. simpl in Hws.
    apply andb_prop in Hws as [Hp _]. unfold named_first.
    now rewrite (plain_word_not_default w Hp). }
  rewrite (runCommand_of_words v ws Hw Hn (last_plain_words ws Hws)).
  unfold expected, asks_for_help, helpOptSet, versionOptSet, offending.
  cbn [argv_help argv_version argv_keys words default orb app].
  rewrite (help_word_false ws (last_plain_words ws Hws)).
  destruct ws as [|w rest]; [eexists; split; [reflexivity | tauto]|].
  unfold name_given, surplus_words, valid_form, table_line.
  destruct (name_of w) as [[]|].
  - destruct rest; eexists; (split; [reflexivity|]); simpl; split;
      first [discriminate | reflexivity].
  - destruct rest as [|c [|r rest]]; eexists; (split; [reflexivity|]); simpl;
      split; first [discriminate | reflexivity].
  - destruct rest as [|c [|r rest]]; eexists; (split; [reflexivity|]); simpl;
      split; first [discriminate | reflexivity].
  - assert (Hr : forallb rendered rest = true).
    { simpl in Hws. apply andb_prop in Hws as [_ Hrest].
      rewrite forallb_forall in *. intros x Hin. apply plain_word_rendered, Hrest, Hin. }
    destruct (upgrade_line_rendered rest Hr) as (line & ->).
    eexists. split; [reflexivity|]. simpl. tauto.
  - destruct rest; eexists; (split; [reflexivity|]); simpl; split;
      first [discriminate | reflexivity].
  - eexists. split; [reflexivity|]. simpl. split; discriminate.
Qed.

Lemma success_iff_valid_form_witness :
  forallb plain_word ["init"; "now"] = true /\
  valid_form ["init"; "now"] = false /\
  exists o, runCommand "0.1.0" ["init"; "now"] = Some o /\
            (exit_code o = 0%Z <-> valid_form ["init"; "now"] = true).
Proof.
  split; [reflexivity|]. split; [reflexivity|].
  apply (success_iff_valid_form "0.1.0" ["init"; "now"]). reflexivity.
Defined.

(** ** The two flags *)

(** X3. With [--help] or [-h] somewhere among flags and plain words (and no
    version flag), the process exits with code 0, leaves stderr empty and
    writes one help screen to stdout: the help of the command that the
    first word names, if it names one, and the help of the script
    otherwise.  Nothing is validated: [add --help] succeeds without a
    component name. *)
Theorem help_flag_shows_help (v : string) (args : list string) :
  forallb token_ok args = true ->
  ~ In "--version" args -> ~ In "-v" args ->
  In "--help" args \/ In "-h" args ->
  runCommand v args =
    Some {| out := [Help (screen (Index.cli v) (context_of args))];
            err := [];
            exit_code := 0 |}.
Proof.
  intros Hargs Hno _ Hhelp%asks_help_In.
  rewrite (runCommand_reads v args Hno Hargs).
  unfold expected, asks_for_help, helpOptSet. cbn [argv_help words].
  rewrite Hhelp. cbn [default orb].
  rewrite (help_word_false _ (last_plain_words _ (words_of_plain args))).
  reflexivity.
Qed.

Lemma help_flag_shows_help_witness :
  forallb token_ok ["add"; "--help"] = true /\
  ~ In "--version" ["add"; "--help"] /\ ~ In "-v" ["add"; "--help"] /\
  (In "--help" ["add"; "--help"] \/ In "-h" ["add"; "--help"]) /\
  runCommand "0.1.0" ["add"; "--help"] =
    Some {| out := [Help (command_help (Index.cli "0.1.0") Index.add_command)];
            err := [];
            exit_code := 0 |}.
Proof.
  assert (Hno : forall t, t <> "add" -> t <> "--help" -> ~ In t ["add"; "--help"]).
  { intros t H1 H2 [H|[H|[]]]; congruence. }
  split; [reflexivity|].
  split; [apply Hno; discriminate|]. split; [apply Hno; discriminate|].
  split; [left; simpl; tauto|].
  apply (help_flag_shows_help "0.1.0" ["add"; "--help"]);
    [reflexivity | apply Hno; discriminate | apply Hno; discriminate
    | left; simpl; tauto].
Defined.

(** X4. For a version string that is not empty: with [-v] somewhere among
    flags and plain words and no help flag, the process prints the version
    string alone and exits with code 0, whatever the words are: no command
    runs and nothing is validated. *)
Theorem version_alias_prints_the_version (v : string) (args : list string) :
  v <> "" ->
  forallb token_ok args = true ->
  ~ In "--help" args -> ~ In "-h" args ->
  In "-v" args ->
  runCommand v args = Some {| out := [Line v]; err := []; exit_code := 0 |}.
Proof.
  intros Hne Hargs Hh1 Hh2 Hv.
  destruct (in_dec string_dec "--version" args) as [Hlong | Hno].
  { rewrite runCommand_guard. apply includes_In in Hlong. rewrite Hlong.
    reflexivity. }
  rewrite (runCommand_reads v args Hno Hargs).
  unfold expected, asks_for_help, helpOptSet, versionOptSet.
  cbn [argv_help argv_version words].
  assert (asks_help args = false) as ->.
  { destruct (asks_help args) eqn:E; [|reflexivity].
    apply asks_help_In in E. tauto. }
  assert (asks_version args = true) as -> by (apply asks_version_In; auto).
  cbn [default orb].
  rewrite (help_word_false _ (last_plain_words _ (words_of_plain args))).
  change (version (Index.cli v)) with v. unfold or_undefined.
  destruct (String.eqb_spec v ""); [contradiction | reflexivity].
Qed.

Lemma version_alias_prints_the_version_witness :
  "0.1.0" <> "" /\
  forallb token_ok ["add"; "-v"] = true /\
  ~ In "--help" ["add"; "-v"] /\ ~ In "-h" ["add"; "-v"] /\
  In "-v" ["add"; "-v"] /\
  runCommand "0.1.0" ["add"; "-v"] =
    Some {| out := [Line "0.1.0"]; err := []; exit_code := 0 |}.
Proof.
  assert (Hno : forall t, t <> "add" -> t <> "-v" -> ~ In t ["add"; "-v"]).
  { intros t H1 H2 [H|[H|[]]]; congruence. }
  split; [discriminate|]. split; [reflexivity|].
  split; [apply Hno; discriminate|]. split; [apply Hno; discriminate|].
  split; [simpl; tauto|].
  apply (version_alias_prints_the_version "0.1.0" ["add"; "-v"]);
    [discriminate | reflexivity | apply Hno; discriminate | apply Hno; discriminate
    | simpl; tauto].
Defined.

(** X5. Where the flags stand among the words does not matter: two argument
    vectors with the same flags present and the same plain words in the
    same order have the same outcome. *)
Theorem flags_go_anywhere (v : string) (args args' : list string) :
  forallb token_ok args = true -> forallb token_ok args' = true ->
  ~ In "--version" args -> ~ In "--version" args' ->
  asks_help args = asks_help args' ->
  asks_version args = asks_version args' ->
  words_of args = words_of args' ->
  runCommand v args = runCommand v args'.
Proof.
  intros Hargs Hargs' Hno Hno' Hh Hv Hw.
  rewrite (runCommand_reads v args Hno Hargs), (runCommand_reads v args' Hno' Hargs').
  rewrite Hh, Hv, Hw. reflexivity.
Qed.

Lemma flags_go_anywhere_witness :
  forallb token_ok ["--help"; "init"] = true /\
  forallb token_ok ["init"; "-h"; "-h"] = true /\
  ~ In "--version" ["--help"; "init"] /\ ~ In "--version" ["init"; "-h"; "-h"] /\
  asks_help ["--help"; "init"] = asks_help ["init"; "-h"; "-h"] /\
  asks_version ["--help"; "init"] = asks_version ["init"; "-h"; "-h"] /\
  words_of ["--help"; "init"] = words_of ["init"; "-h"; "-h"] /\
  runCommand "0.1.0" ["--help"; "init"] = runCommand "0.1.0" ["init"; "-h"; "-h"].
Proof.
  assert (H1 : ~ In "--version" ["--help"; "init"]).
  { intros [H|[H|[]]]; discriminate. }
  assert (H2 : ~ In "--version" ["init"; "-h"; "-h"]).
  { intros [H|[H|[H|[]]]]; discriminate. }
  split; [reflexivity|]. split; [reflexivity|].
  split; [exact H1|]. split; [exact H2|].
  split; [reflexivity|]. split; [reflexivity|]. split; [reflexivity|].
  apply (flags_go_anywhere "0.1.0" ["--help"; "init"] ["init"; "-h"; "-h"]);
    first [reflexivity | assumption].
Defined.

(** ** What reaches a handler *)

Lemma index_invoke (v : string) (args : list string) (c : command)
    (argv : arguments) :
  decide_args (Index.cli v) args = Some (Invoke c argv) ->
  exists p context,
    scan (Index.cli v) args = Some p /\
    classify p = Invokes context argv /\
    c = match context with
        | None => Index.default_command v
        | Some n => command_of n
        end.
Proof.
  unfold decide_args.
  destruct (scan (Index.cli v) args) as [p|] eqn:Hp; [|discriminate].
  cbn [fmap option_fmap option_map]. rewrite (index_resolve v args p Hp).
  destruct (classify p) as [context| |context f|context argv'] eqn:Hc;
    cbn [realise]; try discriminate.
  intros [= <- <-]. exists p, context. auto.
Qed.

Lemma classify_invokes (p : parsed) (n : name) (argv : arguments) :
  classify p = Invokes (Some n) argv ->
  context (words p) = Some n /\ name_given (words p) = true
  /\ argv = bound_arguments (words p).
Proof.
  unfold classify. destruct (asks_for_help p); [discriminate|].
  destruct (versionOptSet p); [discriminate|].
  rewrite classify_words_shape.
  destruct (name_given (words p)); [|discriminate].
  unfold strictly. destruct (argv_keys p ++ surplus_words (words p)); [|discriminate].
  intros [= -> <-]. auto.
Qed.

(** X6. On every argument vector the parser reads, a handler is only
    invoked with its required positional bound: whenever the dispatcher
    decides to run a command, every parameter that the command declares
    with [demandOption: true] is present in the parsed arguments as a
    string, and that string is one of the tokens of the command line.
    [add] and [remove] never see an undefined [component-name], nor a
    number in its place. *)
Theorem handlers_get_their_names (v : string) (args : list string)
    (c : command) (argv : arguments) (q : param) :
  decide_args (Index.cli v) args = Some (Invoke c argv) ->
  In q (builder c) ->
  demandOption q = true ->
  exists s, argv !! param_name q = Some (VOne (EString s)) /\ In s args.
Proof.
  intros Hdec Hq Hdemand.
  destruct (index_invoke v args c argv Hdec) as (p & ctx & Hp & Hc & ->).
  destruct ctx as [n|]; [|destruct Hq].
  destruct (classify_invokes p n argv Hc) as (Hn & Hg & ->).
  destruct (scan_reads (Index.cli v) (Index.default_command v) eq_refl eq_refl
              args p Hp) as [Hr _].
  pose proof (reads_words (Index.cli v) args p Hr) as Hin.
  unfold context, name_given, bound_arguments in *.
  destruct (words p) as [|w rest]; [discriminate|].
  destruct (name_of w) as [m|]; [|discriminate]. injection Hn as ->.
  destruct n;
    cbn [command_of builder Index.init_command Index.add_command
         Index.remove_command Index.upgrade_command Index.wipe_command In] in Hq;
    try contradiction; destruct Hq as [<- | []]; try discriminate Hdemand.
  - destruct rest as [|s rest]; [discriminate|]. exists s. cbn [param_name].
    rewrite lookup_singleton_eq. split; [reflexivity|].
    apply (Hin s). simpl. tauto.
  - destruct rest as [|s rest]; [discriminate|]. exists s. cbn [param_name].
    rewrite lookup_singleton_eq. split; [reflexivity|].
    apply (Hin s). simpl. tauto.
Qed.

Lemma handlers_get_their_names_witness :
  let q := {| param_name := "component-name";
              param_describe := "The name of the component to add";
              param_type_of := TString;
              demandOption := true |} in
  decide_args (Index.cli "0.1.0") ["--no-help"; "add"; "1.0"] =
    Some (Invoke Index.add_command {[ "component-name" := VOne (EString "1.0") ]}) /\
  In q (builder Index.add_command) /\
  demandOption q = true /\
  exists s, ({[ "component-name" := VOne (EString "1.0") ]} : arguments)
              !! param_name q = Some (VOne (EString s))
            /\ In s ["--no-help"; "add"; "1.0"].
Proof.
  intros q. split; [reflexivity|]. split; [left; reflexivity|].
  split; [reflexivity|].
  apply (handlers_get_their_names "0.1.0" ["--no-help"; "add"; "1.0"]
           Index.add_command {[ "component-name" := VOne (EString "1.0") ]} q);
    [reflexivity | left; reflexivity | reflexivity].
Defined.

(** X7. On an argument vector without [--version] that the parser reads,
    the default command runs exactly when nothing is left to answer or to
    object to: the help and the version are not asked for, and there is
    neither a word nor an undeclared option.  So it runs on the empty
    argument vector, and also on [--], [--no-help] and [-h false]. *)
Theorem default_runs_when_nothing_is_left (v : string) (args : list string)
    (p : parsed) :
  ~ In "--version" args ->
  scan (Index.cli v) args = Some p ->
  (default_runs v args <->
   asks_for_help p = false /\ versionOptSet p = false /\ words p = []
   /\ argv_keys p = []).
Proof.
  intros Hno Hp. rewrite (default_runs_iff v args p Hno Hp).
  apply nothing_left_spec.
Qed.

Lemma default_runs_when_nothing_is_left_witness :
  let p := {| argv_help := Some false; argv_version := None;
              argv_keys := []; words := [] |} in
  ~ In "--version" ["-h"; "false"] /\
  scan (Index.cli "0.1.0") ["-h"; "false"] = Some p /\
  (default_runs "0.1.0" ["-h"; "false"] <->
   asks_for_help p = false /\ versionOptSet p = false /\ words p = []
   /\ argv_keys p = []).
Proof.
  intros p.
  assert (Hno : ~ In "--version" ["-h"; "false"]).
  { intros H. apply includes_In in H. discriminate H. }
  split; [exact Hno|]. split; [reflexivity|].
  apply (default_runs_when_nothing_is_left "0.1.0" ["-h"; "false"] p);
    [exact Hno | reflexivity].
Defined.

(** ** More on the two variants *)

(** X8. On every followed argument vector both variants run to their end
    and exit with the same code, also where their output differs. *)
Theorem variants_same_exit_code (v : string) (args : list string) :
  followed v args = true ->
  exists o o',
    runCommand v args = Some o /\ runCommand_part000 v args = Some o' /\
    exit_code o' = exit_code o.
Proof.
  intros Hf. destruct (followed_compared v args Hf) as (o & o' & Ho & Ho' & Hc).
  exists o, o'. unfold compared in Hc. tauto.
Qed.

Lemma variants_same_exit_code_witness :
  followed "0.1.0" ["--foo"; "bar"] = true /\
  exists o o',
    runCommand "0.1.0" ["--foo"; "bar"] = Some o /\
    runCommand_part000 "0.1.0" ["--foo"; "bar"] = Some o' /\
    exit_code o' = exit_code o.
Proof.
  split; [reflexivity|].
  apply (variants_same_exit_code "0.1.0" ["--foo"; "bar"]). reflexivity.
Defined.

(** X9. On every followed argument vector the two variants write the same
    to stdout, unless stdout is the help screen of the script (asked for
    by a flag or by the word [help] outside a command), which differs
    between the variants: what the variant of part_000 adds to the default
    command, and the screen that precedes an error message, go to
    stderr. *)
Theorem variants_same_stdout_off_the_root_help (v : string) (args : list string) :
  followed v args = true ->
  exists o o',
    runCommand v args = Some o /\ runCommand_part000 v args = Some o' /\
    (out o' = out o <-> out o <> [Help (root_help (Index.cli v))]).
Proof.
  intros Hf. destruct (followed_compared v args Hf) as (o & o' & Ho & Ho' & Hc).
  exists o, o'. unfold compared in Hc. tauto.
Qed.

Lemma variants_same_stdout_off_the_root_help_witness :
  followed "0.1.0" ["help"] = true /\
  exists o o',
    runCommand "0.1.0" ["help"] = Some o /\
    runCommand_part000 "0.1.0" ["help"] = Some o' /\
    (out o' = out o <-> out o <> [Help (root_help (Index.cli "0.1.0"))]).
Proof.
  split; [reflexivity|].
  apply (variants_same_stdout_off_the_root_help "0.1.0" ["help"]). reflexivity.
Defined.

(** X10. On every followed argument vector the variant of part_000 leaves
    stderr empty exactly when it exits with code 0 without running the
    default command: a failure writes its message there, and so does the
    default command, whose handler calls [cli.showHelp()], although the
    exit code is 0. *)
Theorem part000_stderr_is_empty_iff (v : string) (args : list string) :
  followed v args = true ->
  exists o',
    runCommand_part000 v args = Some o' /\
    (err o' = [] <-> exit_code o' = 0%Z /\ ~ default_runs v args).
Proof.
  intros Hf. destruct (followed_compared v args Hf) as (o & o' & Ho & Ho' & Hc).
  exists o'. unfold compared in Hc. tauto.
Qed.

Lemma part000_stderr_is_empty_iff_witness :
  followed "0.1.0" ["--"] = true /\
  exists o',
    runCommand_part000 "0.1.0" ["--"] = Some o' /\
    (err o' = [] <-> exit_code o' = 0%Z /\ ~ default_runs "0.1.0" ["--"]).
Proof.
  split; [reflexivity|].
  apply (part000_stderr_is_empty_iff "0.1.0" ["--"]). reflexivity.
Defined.

(** ** Failures *)

Lemma classify_fails (p : parsed) (ctx : option name) (f : failure) :
  classify p = Fails ctx f ->
  ctx = context (words p) /\
  ((f = NotEnoughNonOptionArguments 0 1 /\ name_given (words p) = false) \/
   (f = UnknownArguments (offending p) /\ offending p <> []
    /\ name_given (words p) = true)).
Proof.
  unfold classify. destruct (asks_for_help p); [discriminate|].
  destruct (versionOptSet p); [discriminate|].
  rewrite classify_words_shape. unfold offending.
  destruct (name_given (words p)).
  - unfold strictly.
    destruct (argv_keys p ++ surplus_words (words p)) as [|k l]; [discriminate|].
    intros [= <- <-]. split; [reflexivity|]. right. repeat split. discriminate.
  - intros [= <- <-]. auto.
Qed.

(** X11. On every followed argument vector a failure of [src/index.ts] is
    of one of two kinds: [add] or [remove] lacks its component name, or
    there are unknown arguments (undeclared options, surplus words).  It
    is decided before any handler is invoked (the outcome is the same
    whatever the handlers of the table are), it is reported on stderr
    after the help screen of the context, and the exit code is 1. *)
Theorem failures_are_of_two_kinds (v : string) (args : list string) :
  followed v args = true ->
  exists o,
    runCommand v args = Some o /\
    (exit_code o <> 0%Z ->
     exists p f,
       scan (Index.cli v) args = Some p /\
       decide_args (Index.cli v) args =
         Some (Fail (screen (Index.cli v) (context (words p))) f) /\
       ((f = NotEnoughNonOptionArguments 0 1 /\ name_given (words p) = false) \/
        (f = UnknownArguments (offending p) /\ offending p <> []
         /\ name_given (words p) = true)) /\
       o = reported (screen (Index.cli v) (context (words p))) (message f) /\
       forall h, Proc.run (parse (rewire h (Index.cli v)) args) = Some o).
Proof.
  intros Hf. destruct (followed_compared v args Hf) as (o & _ & Ho & _ & _).
  exists o. split; [exact Ho|]. intros Hcode.
  destruct (in_dec string_dec "--version" args) as [Hin | Hno].
  { rewrite runCommand_guard in Ho. apply includes_In in Hin. rewrite Hin in Ho.
    injection Ho as <-. contradiction Hcode. reflexivity. }
  destruct (followed_parsed v args Hf Hno) as (p & Hp & _).
  apply includes_false_not_In in Hno as Hi.
  rewrite (runCommand_classify v args p Hi Hp) in Ho.
  pose proof (decide_args_classify v args p Hp) as Hdec.
  pose proof (index_resolve v args p Hp) as Hres.
  destruct (classify p) as [c| |c f|[n|] argv] eqn:Hc.
  - injection Ho as <-. contradiction Hcode. reflexivity.
  - injection Ho as <-. contradiction Hcode. reflexivity.
  - destruct (classify_fails p c f Hc) as (-> & Hkind).
    exists p, f. split; [exact Hp|]. split; [exact Hdec|]. split; [exact Hkind|].
    rewrite observe_fails in Ho. injection Ho as <-. split; [reflexivity|].
    intros h. rewrite (parse_rewire_fail h (Index.cli v) args p _ _ Hp Hres).
    reflexivity.
  - destruct (handler_named_exit n _ _ o Ho) as (line & ->).
    contradiction Hcode. reflexivity.
  - injection Ho as <-. contradiction Hcode. reflexivity.
Qed.

Lemma failures_are_of_two_kinds_witness :
  followed "0.1.0" ["add"; "--foo"; "button"] = true /\
  exists o,
    runCommand "0.1.0" ["add"; "--foo"; "button"] = Some o /\
    (exit_code o <> 0%Z ->
     exists p f,
       scan (Index.cli "0.1.0") ["add"; "--foo"; "button"] = Some p /\
       decide_args (Index.cli "0.1.0") ["add"; "--foo"; "button"] =
         Some (Fail (screen (Index.cli "0.1.0") (context (words p))) f) /\
       ((f = NotEnoughNonOptionArguments 0 1 /\ name_given (words p) = false) \/
        (f = UnknownArguments (offending p) /\ offending p <> []
         /\ name_given (words p) = true)) /\
       o = reported (screen (Index.cli "0.1.0") (context (words p))) (message f) /\
       forall h, Proc.run (parse (rewire h (Index.cli "0.1.0"))
                                 ["add"; "--foo"; "button"]) = Some o).
Proof.
  split; [reflexivity|].
  apply (failures_are_of_two_kinds "0.1.0" ["add"; "--foo"; "button"]). reflexivity.
Defined.
